(** * go-vcard: the vCard encoder, embedded and verified

    A shallow embedding of the encoder of the [vcard] package: the value
    escaping and line folding helpers, the property writers, [Validate],
    [String] (the serializer) and [Clone].

    Go strings are byte sequences: they are modelled as [string], whose
    characters are the 8-bit [ascii].  Runes are integers ([Z]). *)

From Stdlib Require Import ZArith Ascii String List Bool Lia DecimalString.
From stdpp Require Import base option list gmap strings.

Import ListNotations.
Local Open Scope Z_scope.

#[local] Arguments String.append !_ _ / : simpl nomatch.

(** ** Bytes, runes and UTF-8 (packages [unicode/utf8] and [strings]) *)

Module Utf8.

Definition byteZ (c : ascii) : Z := Z.of_N (N_of_ascii c).

(** The conversion [byte(x)] keeps the low eight bits. *)
Definition Zbyte (z : Z) : ascii := ascii_of_N (Z.to_N (Z.land z 255)).

Definition RuneError : Z := 65533.
Definition MaxRune : Z := 1114111.

(** The table [first] of [unicode/utf8], as (size, lowest and highest
    accepted second byte); [None] is the entry [xx] of an invalid lead
    byte. ASCII lead bytes are handled by the caller. *)
Definition first (s0 : Z) : option (Z * Z * Z) :=
  if s0 <? 194 then None
  else if s0 <=? 223 then Some (2, 128, 191)
  else if s0 =? 224 then Some (3, 160, 191)
  else if s0 <=? 236 then Some (3, 128, 191)
  else if s0 =? 237 then Some (3, 128, 159)
  else if s0 <=? 239 then Some (3, 128, 191)
  else if s0 =? 240 then Some (4, 144, 191)
  else if s0 <=? 243 then Some (4, 128, 191)
  else if s0 =? 244 then Some (4, 128, 143)
  else None.

Definition cont (b : Z) : bool := (128 <=? b) && (b <=? 191).

(** [utf8.DecodeRuneInString]: the rune at the head of [s] and its width in
    bytes; an invalid or truncated encoding gives [(RuneError, 1)]. *)
Definition DecodeRuneInString (s : string) : Z * nat :=
  match s with
  | EmptyString => (RuneError, 0%nat)
  | String c0 t0 =>
    let s0 := byteZ c0 in
    if s0 <? 128 then (s0, 1%nat)
    else match first s0, t0 with
      | Some (sz, lo, hi), String c1 t1 =>
        let s1 := byteZ c1 in
        if (s1 <? lo) || (hi <? s1) then (RuneError, 1%nat)
        else if sz <=? 2 then
          (Z.lor (Z.shiftl (Z.land s0 31) 6) (Z.land s1 63), 2%nat)
        else match t1 with
          | String c2 t2 =>
            let s2 := byteZ c2 in
            if negb (cont s2) then (RuneError, 1%nat)
            else if sz <=? 3 then
              (Z.lor (Z.lor (Z.shiftl (Z.land s0 15) 12)
                            (Z.shiftl (Z.land s1 63) 6))
                     (Z.land s2 63), 3%nat)
            else match t2 with
              | String c3 _ =>
                let s3 := byteZ c3 in
                if negb (cont s3) then (RuneError, 1%nat)
                else
                  (Z.lor (Z.lor (Z.lor (Z.shiftl (Z.land s0 7) 18)
                                       (Z.shiftl (Z.land s1 63) 12))
                                (Z.shiftl (Z.land s2 63) 6))
                         (Z.land s3 63), 4%nat)
              | EmptyString => (RuneError, 1%nat)
              end
          | EmptyString => (RuneError, 1%nat)
          end
      | _, _ => (RuneError, 1%nat)
      end
  end.

Definition enc3 (r : Z) : string :=
  String (Zbyte (Z.lor 224 (Z.shiftr r 12)))
    (String (Zbyte (Z.lor 128 (Z.land (Z.shiftr r 6) 63)))
      (String (Zbyte (Z.lor 128 (Z.land r 63))) EmptyString)).

(** [utf8.AppendRune] on an empty buffer, which is what
    [strings.Builder.WriteRune] appends. Runes out of range and surrogates
    are written as [RuneError]. *)
Definition EncodeRune (r : Z) : string :=
  if (0 <=? r) && (r <=? 127) then String (Zbyte r) EmptyString
  else if (0 <=? r) && (r <=? 2047) then
    String (Zbyte (Z.lor 192 (Z.shiftr r 6)))
      (String (Zbyte (Z.lor 128 (Z.land r 63))) EmptyString)
  else if (r <? 0) || (MaxRune <? r) || ((55296 <=? r) && (r <=? 57343))
  then enc3 RuneError
  else if r <=? 65535 then enc3 r
  else
    String (Zbyte (Z.lor 240 (Z.shiftr r 18)))
      (String (Zbyte (Z.lor 128 (Z.land (Z.shiftr r 12) 63)))
        (String (Zbyte (Z.lor 128 (Z.land (Z.shiftr r 6) 63)))
          (String (Zbyte (Z.lor 128 (Z.land r 63))) EmptyString))).

(** The runes of a string in the order [for _, r := range s] yields them.
    [skip] counts the bytes of the current rune still to be passed. *)
Fixpoint runes_from (skip : nat) (s : string) : list Z :=
  match s with
  | EmptyString => []
  | String _ s' =>
    match skip with
    | S k => runes_from k s'
    | O => let '(r, w) := DecodeRuneInString s in r :: runes_from (w - 1) s'
    end
  end.

Definition runes (s : string) : list Z := runes_from 0 s.

(** [utf8.RuneCountInString] *)
Definition RuneCountInString (s : string) : nat := List.length (runes s).

End Utf8.

Module Strings.

(** [strings.HasPrefix] *)
Definition HasPrefix (s p : string) : bool := String.prefix p s.

(** [strings.Join] *)
Definition Join (elems : list string) (sep : string) : string :=
  String.concat sep elems.

(** The replacement loop of [strings.Replace] for a non-empty [old]:
    matches are found left to right and do not overlap. [skip] counts the
    bytes of a match that remain to be dropped. *)
Fixpoint replace_from (old new : string) (skip : nat) (s : string) : string :=
  match s with
  | EmptyString => EmptyString
  | String c s' =>
    match skip with
    | S k => replace_from old new k s'
    | O =>
      if String.prefix old s
      then new +:+ replace_from old new (String.length old - 1) s'
      else String c (replace_from old new 0 s')
    end
  end.

(** [strings.Replace] with an empty [old]: [new] goes in front of every
    UTF-8 sequence and at the end. *)
Fixpoint insert_from (new : string) (skip : nat) (s : string) : string :=
  match s with
  | EmptyString => new
  | String c s' =>
    match skip with
    | S k => String c (insert_from new k s')
    | O => new +:+
           String c (insert_from new (snd (Utf8.DecodeRuneInString s) - 1) s')
    end
  end.

(** [strings.ReplaceAll] *)
Definition ReplaceAll (s old new : string) : string :=
  match old with
  | EmptyString => insert_from new 0 s
  | _ => replace_from old new 0 s
  end.



End Strings.

(** ** Characters used by the encoder *)

Definition LF : string := String "010"%char EmptyString.
Definition CR : string := String "013"%char EmptyString.
Definition TAB : string := String "009"%char EmptyString.
Definition BSL : string := "\".

(** ** The helpers of the serializer *)

(** escapeValue escapes special characters in vCard property values *)
Definition escapeValue (value : string) : string :=
  let value := Strings.ReplaceAll value BSL (BSL +:+ BSL) in
  let value := Strings.ReplaceAll value "," (BSL +:+ ",") in
  let value := Strings.ReplaceAll value ";" (BSL +:+ ";") in
  let value := Strings.ReplaceAll value LF (BSL +:+ "n") in
  let value := Strings.ReplaceAll value CR (BSL +:+ "r") in
  value.

(** unescapeValue unescapes special characters in vCard property values *)
Definition unescapeValue (value : string) : string :=
  let value := Strings.ReplaceAll value (BSL +:+ BSL) BSL in
  let value := Strings.ReplaceAll value (BSL +:+ ",") "," in
  let value := Strings.ReplaceAll value (BSL +:+ ";") ";" in
  let value := Strings.ReplaceAll value (BSL +:+ "n") LF in
  let value := Strings.ReplaceAll value (BSL +:+ "r") CR in
  let value := Strings.ReplaceAll value (BSL +:+ "t") TAB in
  value.

(** The body of the loop [for i, r := range line] of foldLine: [i] is the
    byte offset at which the rune [r] starts. *)
Fixpoint foldLine_range (i : nat) (skip : nat) (line : string) : string :=
  match line with
  | EmptyString => EmptyString
  | String _ rest =>
    match skip with
    | S k => foldLine_range (S i) k rest
    | O =>
      let '(r, w) := Utf8.DecodeRuneInString line in
      (if (0 <? i)%nat && (i mod 75 =? 0)%nat then CR +:+ LF +:+ " " else "")
        +:+ Utf8.EncodeRune r +:+ foldLine_range (S i) (w - 1) rest
    end
  end.

(** foldLine folds long lines according to vCard specification
    (75 characters). [len(line)] is the length in bytes. *)
Definition foldLine (line : string) : string :=
  if (String.length line <=? 75)%nat then line
  else foldLine_range 0 0 line.

(** formatTypeParameter formats type parameters for vCard properties *)
Definition formatTypeParameter (types : list string) : string :=
  match types with
  | [] => ""
  | _ =>
    let validTypes := List.filter (fun t => negb (String.eqb t "")) types in
    match validTypes with
    | [] => ""
    | _ => ";TYPE=" +:+ Strings.Join validTypes ","
    end
  end.

(** ** The data model (types.go) *)

Definition Version := string.
Definition Version30 : Version := "3.0".
Definition Version40 : Version := "4.0".

Module Name.
Record t := mk {
  Last : string; First : string; Middle : string;
  Prefix : string; Suffix : string }.
Definition zero : t := mk "" "" "" "" "".
End Name.

Module Email.
Record t := mk { Address : string; Type_ : string; Preferred : bool }.
End Email.

Module Phone.
Record t := mk { Number : string; Type_ : string; Preferred : bool }.
End Phone.

Module Address.
Record t := mk {
  Street : string; Extended : string; City : string; State : string;
  PostalCode : string; Country : string; Type_ : string; Preferred : bool }.
End Address.

Module Organization.
Record t := mk {
  Name : string; Department : string; Title : string; Role : string }.
Definition zero : t := mk "" "" "" "".
End Organization.

Module URL.
Record t := mk { Address : string; Type_ : string; Preferred : bool }.
End URL.

(** A [time.Time] as the encoder observes it: the calendar date that
    [Format] prints. *)
Module Time.
Record t := mk { Year : Z; Month : Z; Day : Z }.

Definition digits (x : Z) : string := NilZero.string_of_uint (N.to_uint (Z.to_N x)).

Fixpoint zeros (n : nat) : string :=
  match n with O => "" | S k => "0" +:+ zeros k end.

(** [appendInt] of package [time]: a sign for a negative value, then the
    decimal digits padded with zeros up to [width]. *)
Definition appendInt (x : Z) (width : nat) : string :=
  let u := Z.abs x in
  (if x <? 0 then "-" else "") +:+
  zeros (width - String.length (digits u)) +:+ digits u.

(** [t.Format("2006-01-02")] *)
Definition Format (d : t) : string :=
  appendInt (Year d) 4 +:+ "-" +:+ appendInt (Month d) 2 +:+ "-"
  +:+ appendInt (Day d) 2.
End Time.

(** FormattedName returns the full formatted name *)
Definition FormattedName (n : Name.t) : string :=
  let parts := [] in
  let parts := if negb (String.eqb (Name.Prefix n) "")
               then parts ++ [Name.Prefix n] else parts in
  let parts := if negb (String.eqb (Name.First n) "")
               then parts ++ [Name.First n] else parts in
  let parts := if negb (String.eqb (Name.Middle n) "")
               then parts ++ [Name.Middle n] else parts in
  let parts := if negb (String.eqb (Name.Last n) "")
               then parts ++ [Name.Last n] else parts in
  let parts := if negb (String.eqb (Name.Suffix n) "")
               then parts ++ [Name.Suffix n] else parts in
  Strings.Join parts " ".

(** StructuredName returns the vCard structured name format (N property) *)
Definition StructuredName (n : Name.t) : string :=
  Strings.Join [ escapeValue (Name.Last n); escapeValue (Name.First n);
                 escapeValue (Name.Middle n); escapeValue (Name.Prefix n);
                 escapeValue (Name.Suffix n) ] ";".

(** StructuredAddress returns the vCard structured address format (ADR) *)
Definition StructuredAddress (a : Address.t) : string :=
  Strings.Join [ ""; escapeValue (Address.Extended a);
                 escapeValue (Address.Street a); escapeValue (Address.City a);
                 escapeValue (Address.State a);
                 escapeValue (Address.PostalCode a);
                 escapeValue (Address.Country a) ] ";".

(** FormattedAddress returns a human-readable address string *)
Definition FormattedAddress (a : Address.t) : string :=
  let parts := [] in
  let parts := if negb (String.eqb (Address.Street a) "")
               then parts ++ [Address.Street a] else parts in
  let parts := if negb (String.eqb (Address.Extended a) "")
               then parts ++ [Address.Extended a] else parts in
  let cityState := [] in
  let cityState := if negb (String.eqb (Address.City a) "")
                   then cityState ++ [Address.City a] else cityState in
  let cityState := if negb (String.eqb (Address.State a) "")
                   then cityState ++ [Address.State a] else cityState in
  let parts := if (0 <? List.length cityState)%nat
               then parts ++ [Strings.Join cityState ", "] else parts in
  let parts := if negb (String.eqb (Address.PostalCode a) "")
               then parts ++ [Address.PostalCode a] else parts in
  let parts := if negb (String.eqb (Address.Country a) "")
               then parts ++ [Address.Country a] else parts in
  Strings.Join parts LF.

(** The contact. [customProps] is a Go map: the list holds its entries in
    the order in which [range] yields them, which the language leaves
    unspecified; the theorems hold for every order. *)
Record VCard := mkVCard {
  version : Version;
  name : Name.t;
  emails : list Email.t;
  phones : list Phone.t;
  addresses : list Address.t;
  organization : Organization.t;
  urls : list URL.t;
  photo : string;
  note : string;
  birthday : option Time.t;
  anniversary : option Time.t;
  customProps : list (string * string) }.

(** New creates a new vCard instance with default settings (version 3.0) *)
Definition New : VCard :=
  mkVCard Version30 Name.zero [] [] [] Organization.zero [] "" "" None None [].


(** ** Errors *)

(** The values built by [fmt.Errorf]: a plain message, or with the verb
    [%w] a message that wraps the error it was given. *)
Inductive error :=
| errorString (msg : string)
| wrapError (msg : string) (err : error).

Definition Error (e : error) : string :=
  match e with errorString m => m | wrapError m _ => m end.

(** [errors.Unwrap] *)
Definition Unwrap (e : error) : option error :=
  match e with errorString _ => None | wrapError _ e' => Some e' end.

(** ** Validation *)

(** The first error of a loop that returns on the first failing entry. *)
Fixpoint first_error {A} (bad : A -> bool) (e : error) (l : list A)
  : option error :=
  match l with
  | [] => None
  | x :: l' => if bad x then Some e else first_error bad e l'
  end.

(** Validate checks if the vCard has required fields and valid data *)
Definition Validate (v : VCard) : option error :=
  if String.eqb (Name.First (name v)) "" && String.eqb (Name.Last (name v)) ""
  then Some (errorString "vcard must have at least first name or last name")
  else
    match first_error (fun email => String.eqb (Email.Address email) "")
            (errorString "email address cannot be empty") (emails v) with
    | Some e => Some e
    | None =>
      first_error (fun phone => String.eqb (Phone.Number phone) "")
        (errorString "phone number cannot be empty") (phones v)
    end.

(** IsValid returns true if the vCard has valid required fields *)
Definition IsValid (v : VCard) : bool :=
  match Validate v with None => true | Some _ => false end.

(** ** The serializer *)

(** A [strings.Builder] is kept as the sequence of the strings written to
    it; its [String()] is their concatenation. *)
Definition Builder := list string.

Definition WriteString (b : Builder) (s : string) : Builder := b ++ [s].

Definition Builder_String (b : Builder) : string := String.concat "" b.

(** The formatted name that writeNameProperties computes for the FN line. *)
Definition fnValue (n : Name.t) : string :=
  let formattedName := FormattedName n in
  if String.eqb formattedName "" then
    if negb (String.eqb (Name.Last n) "") && negb (String.eqb (Name.First n) "")
    then Name.Last n +:+ ", " +:+ Name.First n
    else if negb (String.eqb (Name.First n) "") then Name.First n
    else if negb (String.eqb (Name.Last n) "") then Name.Last n
    else formattedName
  else formattedName.

(** writeNameProperties writes name-related properties to the builder *)
Definition writeNameProperties (v : VCard) (builder : Builder)
  : Builder * option error :=
  let builder :=
    WriteString builder ("N:" +:+ StructuredName (name v) +:+ LF) in
  let formattedName := fnValue (name v) in
  let builder :=
    if negb (String.eqb formattedName "")
    then WriteString builder ("FN:" +:+ escapeValue formattedName +:+ LF)
    else builder in
  (builder, None).

Definition emailLine (email : Email.t) : string :=
  let typeParam :=
    if negb (String.eqb (Email.Type_ email) "")
    then formatTypeParameter [Email.Type_ email]
    else formatTypeParameter ["INTERNET"] in
  let typeParam :=
    if Email.Preferred email then typeParam +:+ ";PREF=1" else typeParam in
  "EMAIL" +:+ typeParam +:+ ":" +:+ escapeValue (Email.Address email).

(** writeEmailProperties writes email properties to the builder *)
Definition writeEmailProperties (v : VCard) (builder : Builder) : Builder :=
  fold_left (fun b email => WriteString b (foldLine (emailLine email) +:+ LF))
    (emails v) builder.

Definition phoneLine (phone : Phone.t) : string :=
  let typeParam :=
    if negb (String.eqb (Phone.Type_ phone) "")
    then formatTypeParameter [Phone.Type_ phone]
    else formatTypeParameter ["VOICE"] in
  let typeParam :=
    if Phone.Preferred phone then typeParam +:+ ";PREF=1" else typeParam in
  "TEL" +:+ typeParam +:+ ":" +:+ escapeValue (Phone.Number phone).

(** writePhoneProperties writes phone properties to the builder *)
Definition writePhoneProperties (v : VCard) (builder : Builder) : Builder :=
  fold_left (fun b phone => WriteString b (foldLine (phoneLine phone) +:+ LF))
    (phones v) builder.

Definition addrTypeParam (addr : Address.t) : string :=
  let typeParam :=
    if negb (String.eqb (Address.Type_ addr) "")
    then formatTypeParameter [Address.Type_ addr] else "" in
  if Address.Preferred addr then typeParam +:+ ";PREF=1" else typeParam.

Definition hasAddressData (addr : Address.t) : bool :=
  negb (String.eqb (Address.Street addr) "")
  || negb (String.eqb (Address.City addr) "")
  || negb (String.eqb (Address.State addr) "")
  || negb (String.eqb (Address.PostalCode addr) "")
  || negb (String.eqb (Address.Country addr) "").

(** writeAddressProperties writes address properties to the builder *)
Definition writeAddressProperties (v : VCard) (builder : Builder) : Builder :=
  fold_left (fun b addr =>
    let typeParam := addrTypeParam addr in
    let line := "ADR" +:+ typeParam +:+ ":" +:+ StructuredAddress addr in
    let b := WriteString b (foldLine line +:+ LF) in
    if hasAddressData addr then
      let labelLine :=
        "LABEL" +:+ typeParam +:+ ":" +:+ escapeValue (FormattedAddress addr) in
      WriteString b (foldLine labelLine +:+ LF)
    else b)
    (addresses v) builder.

(** writeOrganizationProperties writes organization properties *)
Definition writeOrganizationProperties (v : VCard) (builder : Builder)
  : Builder :=
  let org := organization v in
  let builder :=
    if negb (String.eqb (Organization.Name org) "") then
      let orgParts := [escapeValue (Organization.Name org)] in
      let orgParts :=
        if negb (String.eqb (Organization.Department org) "")
        then orgParts ++ [escapeValue (Organization.Department org)]
        else orgParts in
      let line := "ORG:" +:+ Strings.Join orgParts ";" in
      WriteString builder (foldLine line +:+ LF)
    else builder in
  let builder :=
    if negb (String.eqb (Organization.Title org) "") then
      let line := "TITLE:" +:+ escapeValue (Organization.Title org) in
      WriteString builder (foldLine line +:+ LF)
    else builder in
  if negb (String.eqb (Organization.Role org) "") then
    let line := "ROLE:" +:+ escapeValue (Organization.Role org) in
    WriteString builder (foldLine line +:+ LF)
  else builder.

Definition urlLine (url : URL.t) : string :=
  let typeParam :=
    if negb (String.eqb (URL.Type_ url) "")
    then formatTypeParameter [URL.Type_ url] else "" in
  let typeParam :=
    if URL.Preferred url then typeParam +:+ ";PREF=1" else typeParam in
  "URL" +:+ typeParam +:+ ":" +:+ escapeValue (URL.Address url).

(** writeURLProperties writes URL properties to the builder *)
Definition writeURLProperties (v : VCard) (builder : Builder) : Builder :=
  fold_left (fun b url => WriteString b (foldLine (urlLine url) +:+ LF))
    (urls v) builder.

(** The line that writePhotoProperty formats for a non-empty photo. *)
Definition photoLine (p : string) : string :=
  if Strings.HasPrefix p "http://" || Strings.HasPrefix p "https://"
  then "PHOTO;VALUE=uri:" +:+ p
  else if Strings.HasPrefix p "data:"
  then "PHOTO;ENCODING=b:" +:+ p
  else "PHOTO;ENCODING=b;TYPE=JPEG:" +:+ p.

(** writePhotoProperty writes photo property to the builder *)
Definition writePhotoProperty (v : VCard) (builder : Builder) : Builder :=
  if String.eqb (photo v) "" then builder
  else WriteString builder (foldLine (photoLine (photo v)) +:+ LF).

(** writeBirthdayProperty writes birthday property to the builder *)
Definition writeBirthdayProperty (v : VCard) (builder : Builder) : Builder :=
  match birthday v with
  | None => builder
  | Some d =>
    let dateStr := Time.Format d in
    let line := "BDAY:" +:+ dateStr in
    WriteString builder (line +:+ LF)
  end.

(** writeAnniversaryProperty writes anniversary property to the builder *)
Definition writeAnniversaryProperty (v : VCard) (builder : Builder)
  : Builder :=
  match anniversary v with
  | None => builder
  | Some d =>
    if String.eqb (version v) Version40 then
      let dateStr := Time.Format d in
      let line := "ANNIVERSARY:" +:+ dateStr in
      WriteString builder (line +:+ LF)
    else builder
  end.

(** The ASCII loop of [strings.ToUpper] *)
Fixpoint asciiUpper (s : string) : string :=
  match s with
  | EmptyString => EmptyString
  | String c s' =>
    let b := Utf8.byteZ c in
    String (if (97 <=? b) && (b <=? 122) then Utf8.Zbyte (b - 32) else c)
           (asciiUpper s')
  end.

Fixpoint isASCII (s : string) : bool :=
  match s with
  | EmptyString => true
  | String c s' => (Utf8.byteZ c <? 128) && isASCII s'
  end.

Fixpoint hasLower (s : string) : bool :=
  match s with
  | EmptyString => false
  | String c s' =>
    ((97 <=? Utf8.byteZ c) && (Utf8.byteZ c <=? 122)) || hasLower s'
  end.

Section Encoder.

(** The case table of package [unicode] is not part of the repository: the
    function [unicode.ToUpper] on runes is a parameter of the encoder. *)
Variable unicode_ToUpper : Z -> Z.

(** [strings.Map]: every rune, an invalid byte being [RuneError], is
    replaced by the encoding of its image; a negative image is dropped. *)
Definition Map (mapping : Z -> Z) (s : string) : string :=
  String.concat ""
    (List.map (fun c => let r := mapping c in
                        if 0 <=? r then Utf8.EncodeRune r else "")
              (Utf8.runes s)).

(** [strings.ToUpper], with its path for ASCII-only strings. *)
Definition ToUpper (s : string) : string :=
  if isASCII s then (if hasLower s then asciiUpper s else s)
  else Map unicode_ToUpper s.

(** writeCustomProperties writes custom X- properties to the builder *)
Definition writeCustomProperties (v : VCard) (builder : Builder) : Builder :=
  fold_left (fun b (kv : string * string) =>
    let (name, value) := kv in
    if Strings.HasPrefix (ToUpper name) "X-" && negb (String.eqb value "")
    then
      let line := ToUpper name +:+ ":" +:+ escapeValue value in
      WriteString b (foldLine line +:+ LF)
    else b)
    (customProps v) builder.

(** The part of String that follows the validation: the builder after the
    last write, and the error of writeNameProperties. *)
Definition String_builder (v : VCard) : Builder * option error :=
  let builder : Builder := [] in
  let builder := WriteString builder ("BEGIN:VCARD" +:+ LF) in
  let builder := WriteString builder ("VERSION:" +:+ version v +:+ LF) in
  match writeNameProperties v builder with
  | (builder, Some err) => (builder, Some err)
  | (builder, None) =>
    let builder := writeEmailProperties v builder in
    let builder := writePhoneProperties v builder in
    let builder := writeAddressProperties v builder in
    let builder := writeOrganizationProperties v builder in
    let builder := writeURLProperties v builder in
    let builder :=
      if negb (String.eqb (photo v) "") then writePhotoProperty v builder
      else builder in
    let builder :=
      if negb (String.eqb (note v) "")
      then WriteString builder ("NOTE:" +:+ escapeValue (note v) +:+ LF)
      else builder in
    let builder :=
      match birthday v with
      | Some _ => writeBirthdayProperty v builder
      | None => builder
      end in
    let builder :=
      match anniversary v with
      | Some _ => writeAnniversaryProperty v builder
      | None => builder
      end in
    let builder := writeCustomProperties v builder in
    let builder := WriteString builder ("END:VCARD" +:+ LF) in
    (builder, None)
  end.

(** String generates the vCard content as a string *)
Definition VCard_String (v : VCard) : string * option error :=
  match Validate v with
  | Some err =>
    ("", Some (wrapError ("vcard validation failed: " +:+ Error err) err))
  | None =>
    match String_builder v with
    | (_, Some err) => ("", Some err)
    | (builder, None) => (Builder_String builder, None)
    end
  end.

End Encoder.

Definition asciiToUpper (r : Z) : Z :=
  if (97 <=? r) && (r <=? 122) then r - 32 else r.

(** * Clone: contacts in memory

    A [*VCard] is a reference to a struct whose slices, date pointers and
    map refer to further objects. The memory is a finite map from
    locations to objects; the methods are state transformers that fail on
    a dangling or ill-typed reference. *)

Module Heap.

Abbreviation loc := nat (only parsing).

(** A slice header: the backing array ([None] for a nil slice), the length
    and the capacity. *)
Record slice := Slice { ptr : option loc; len : nat; cap : nat }.

(** The elements of the four slices. *)
Inductive elem :=
| EEmail (e : Email.t)
| EPhone (p : Phone.t)
| EAddress (a : Address.t)
| EURL (u : URL.t).

(** The struct [VCard]. *)
Record card := Card {
  version : Version;
  name : Name.t;
  emails : slice;
  phones : slice;
  addresses : slice;
  organization : Organization.t;
  urls : slice;
  photo : string;
  note : string;
  birthday : option loc;
  anniversary : option loc;
  customProps : option loc }.

Inductive cell :=
| CCard (o : card)
| CArray (a : list elem)
| CTime (t : Time.t)
| CMap (m : gmap string string).

Abbreviation heap := (gmap nat cell) (only parsing).

(** ** The state and error monad of the methods *)

Definition M (A : Type) : Type := heap -> option (A * heap).

Definition ret {A} (x : A) : M A := fun h => Some (x, h).

Definition fail {A} : M A := fun _ => None.

Definition bind {A B} (m : M A) (k : A -> M B) : M B :=
  fun h => match m h with Some (x, h') => k x h' | None => None end.

Notation "x <- m ;; k" := (bind m (fun x => k))
  (at level 100, m at next level, right associativity).

Definition alloc (c : cell) : M loc :=
  fun h => let l := fresh (dom h) in Some (l, <[l := c]> h).

Definition load (l : loc) : M cell :=
  fun h => match h !! l with Some c => Some (c, h) | None => None end.

Definition store (l : loc) (c : cell) : M unit :=
  fun h => match h !! l with Some _ => Some (tt, <[l := c]> h) | None => None end.

Definition load_card (l : loc) : M card :=
  c <- load l ;; match c with CCard o => ret o | _ => fail end.

Definition load_array (l : loc) : M (list elem) :=
  c <- load l ;; match c with CArray a => ret a | _ => fail end.

Definition load_time (l : loc) : M Time.t :=
  c <- load l ;; match c with CTime t => ret t | _ => fail end.

Definition load_map (l : loc) : M (gmap string string) :=
  c <- load l ;; match c with CMap m => ret m | _ => fail end.

(** ** Slices and maps *)

(** [make([]T, n)]: a new array of [n] zero values. *)
Definition make (zero : elem) (n : nat) : M slice :=
  l <- alloc (CArray (replicate n zero)) ;; ret (Slice (Some l) n n).

(** The elements [s[0:len(s)]]. *)
Definition elements (s : slice) : M (list elem) :=
  match ptr s with
  | None => if (len s =? 0)%nat then ret [] else fail
  | Some l =>
    a <- load_array l ;;
    if (len s <=? length a)%nat then ret (take (len s) a) else fail
  end.

(** [copy(dst, src)]: the first [min(len(dst), len(src))] elements. *)
Definition copy (dst src : slice) : M unit :=
  xs <- elements src ;;
  match ptr dst with
  | None => ret tt
  | Some l =>
    a <- load_array l ;;
    let n := Nat.min (len dst) (len src) in
    store l (CArray (take n xs ++ drop n a))
  end.

(** [m[k] = x] *)
Definition mapassign (p : loc) (k x : string) : M unit :=
  m <- load_map p ;; store p (CMap (<[k := x]> m)).

(** A loop [for k, x := range m] over the entries in the order [entries]. *)
Fixpoint range (entries : list (string * string))
         (body : string -> string -> M unit) : M unit :=
  match entries with
  | [] => ret tt
  | (k, x) :: rest => _ <- body k x ;; range rest body
  end.

Definition set_birthday (o : card) (b : option loc) : card :=
  Card (version o) (name o) (emails o) (phones o) (addresses o)
       (organization o) (urls o) (photo o) (note o) b (anniversary o)
       (customProps o).

Definition set_anniversary (o : card) (b : option loc) : card :=
  Card (version o) (name o) (emails o) (phones o) (addresses o)
       (organization o) (urls o) (photo o) (note o) (birthday o) b
       (customProps o).

Definition set_name (o : card) (n : Name.t) : card :=
  Card (version o) n (emails o) (phones o) (addresses o)
       (organization o) (urls o) (photo o) (note o) (birthday o)
       (anniversary o) (customProps o).

Definition set_customProps (o : card) (p : option loc) : card :=
  Card (version o) (name o) (emails o) (phones o) (addresses o)
       (organization o) (urls o) (photo o) (note o) (birthday o)
       (anniversary o) p.

Definition Email_zero : Email.t := Email.mk "" "" false.
Definition Phone_zero : Phone.t := Phone.mk "" "" false.
Definition Address_zero : Address.t := Address.mk "" "" "" "" "" "" "" false.
Definition URL_zero : URL.t := URL.mk "" "" false.

(** Clone creates a deep copy of the vCard *)
Definition Clone (v : loc) : M loc :=
  o <- load_card v ;;
  emails' <- make (EEmail Email_zero) (len (emails o)) ;;
  phones' <- make (EPhone Phone_zero) (len (phones o)) ;;
  addresses' <- make (EAddress Address_zero) (len (addresses o)) ;;
  urls' <- make (EURL URL_zero) (len (urls o)) ;;
  customProps' <- alloc (CMap ∅) ;;
  clone <- alloc (CCard (Card (version o) (name o) emails' phones' addresses'
                              (organization o) urls' (photo o) (note o)
                              None None (Some customProps'))) ;;
  _ <- copy emails' (emails o) ;;
  _ <- copy phones' (phones o) ;;
  _ <- copy addresses' (addresses o) ;;
  _ <- copy urls' (urls o) ;;
  _ <- match birthday o with
       | None => ret tt
       | Some p =>
         t <- load_time p ;;
         birthday' <- alloc (CTime t) ;;
         c <- load_card clone ;;
         store clone (CCard (set_birthday c (Some birthday')))
       end ;;
  _ <- match anniversary o with
       | None => ret tt
       | Some p =>
         t <- load_time p ;;
         anniversary' <- alloc (CTime t) ;;
         c <- load_card clone ;;
         store clone (CCard (set_anniversary c (Some anniversary')))
       end ;;
  _ <- match customProps o with
       | None => ret tt
       | Some p =>
         m <- load_map p ;;
         range (map_to_list m) (fun k x => mapassign customProps' k x)
       end ;;
  ret clone.

(** ** What can be observed of a contact *)

Definition as_email (x : elem) : option Email.t :=
  match x with EEmail e => Some e | _ => None end.
Definition as_phone (x : elem) : option Phone.t :=
  match x with EPhone e => Some e | _ => None end.
Definition as_address (x : elem) : option Address.t :=
  match x with EAddress e => Some e | _ => None end.
Definition as_url (x : elem) : option URL.t :=
  match x with EURL e => Some e | _ => None end.

(** The elements of a slice, read without changing the memory. *)
Definition slice_elems (h : heap) (s : slice) : option (list elem) :=
  fst <$> elements s h.

Definition time_at (h : heap) (p : option loc) : option (option Time.t) :=
  match p with
  | None => Some None
  | Some l => match h !! l with Some (CTime t) => Some (Some t) | _ => None end
  end.

Definition map_at (h : heap) (p : option loc)
  : option (gmap string string) :=
  match p with
  | None => Some ∅
  | Some l => match h !! l with Some (CMap m) => Some m | _ => None end
  end.

Definition card_at (h : heap) (v : loc) : option card :=
  match h !! v with Some (CCard o) => Some o | _ => None end.

(** The contact that the reference [v] stands for in the memory [h]: every
    accessor of the package is a function of it. *)
Definition snapshot (h : heap) (v : loc) : option VCard :=
  o ← card_at h v;
  es ← slice_elems h (emails o) ≫= mapM as_email;
  ps ← slice_elems h (phones o) ≫= mapM as_phone;
  ads ← slice_elems h (addresses o) ≫= mapM as_address;
  us ← slice_elems h (urls o) ≫= mapM as_url;
  bd ← time_at h (birthday o);
  an ← time_at h (anniversary o);
  m ← map_at h (customProps o);
  Some (mkVCard (version o) (name o) es ps ads (organization o) us
                (photo o) (note o) bd an (map_to_list m)).

(** The objects that a contact consists of. *)
Definition ptrs (p : option loc) : gset nat :=
  match p with Some l => {[ l ]} | None => ∅ end.

Definition footprint (h : heap) (v : loc) : gset nat :=
  {[ v ]} ∪
  match card_at h v with
  | Some o =>
    ptrs (ptr (emails o)) ∪ ptrs (ptr (phones o)) ∪ ptrs (ptr (addresses o))
    ∪ ptrs (ptr (urls o)) ∪ ptrs (birthday o) ∪ ptrs (anniversary o)
    ∪ ptrs (customProps o)
  | None => ∅
  end.

(** ** Mutators *)

(** AddName sets the contact's name *)
Definition AddName (v : loc) (first last : string) : M loc :=
  o <- load_card v ;;
  _ <- store v (CCard (set_name o
         (Name.mk last first (Name.Middle (name o)) (Name.Prefix (name o))
                  (Name.Suffix (name o))))) ;;
  ret v.

(** AddCustomProperty adds a custom X- property *)
Definition AddCustomProperty (v : loc) (k x : string) : M loc :=
  o <- load_card v ;;
  p <- match customProps o with
       | None =>
         p <- alloc (CMap ∅) ;;
         _ <- store v (CCard (set_customProps o (Some p))) ;;
         ret p
       | Some p => ret p
       end ;;
  _ <- mapassign p k x ;;
  ret v.

(** GetFormattedName returns the formatted full name *)
Definition GetFormattedName (v : loc) : M string :=
  o <- load_card v ;; ret (FormattedName (name o)).

(** GetCustomProperty returns a specific custom property value *)
Definition GetCustomProperty (v : loc) (k : string) : M string :=
  o <- load_card v ;;
  match customProps o with
  | None => ret ""
  | Some p => m <- load_map p ;; ret (default "" (m !! k))
  end.

(** The memory [h2] differs from [h1] only in the objects of the contact
    [v] and in objects that did not exist in [h1]. *)
Definition mutates_only (h1 h2 : gmap nat cell) (v : nat) : Prop :=
  forall l, l ∈ dom h1 -> l ∉ footprint h1 v -> h2 !! l = h1 !! l.

End Heap.

(** * The vocabulary of the properties *)

(** ** The writes of the serializer

    What each writer appends to the builder, as a list of lines. *)

(** The first two bytes of a write identify the property it belongs to. *)
Definition tag (w : string) : string :=
  match w with
  | String a (String b _) => String a (String b "")
  | _ => w
  end.

Definition nameWrites (v : VCard) : list string :=
  ("N:" +:+ StructuredName (name v) +:+ LF)
  :: (if negb (String.eqb (fnValue (name v)) "")
      then ["FN:" +:+ escapeValue (fnValue (name v)) +:+ LF] else []).

Definition emailWrites (v : VCard) : list string :=
  flat_map (fun email => [foldLine (emailLine email) +:+ LF]) (emails v).

Definition phoneWrites (v : VCard) : list string :=
  flat_map (fun phone => [foldLine (phoneLine phone) +:+ LF]) (phones v).

Definition addressWrites (v : VCard) : list string :=
  flat_map (fun addr =>
    (foldLine ("ADR" +:+ addrTypeParam addr +:+ ":" +:+ StructuredAddress addr)
     +:+ LF)
    :: (if hasAddressData addr
        then [foldLine ("LABEL" +:+ addrTypeParam addr +:+ ":"
                        +:+ escapeValue (FormattedAddress addr)) +:+ LF]
        else []))
    (addresses v).

Definition urlWrites (v : VCard) : list string :=
  flat_map (fun url => [foldLine (urlLine url) +:+ LF]) (urls v).

Definition photoWrites (v : VCard) : list string :=
  if String.eqb (photo v) "" then []
  else [foldLine (photoLine (photo v)) +:+ LF].

Definition noteWrites (v : VCard) : list string :=
  if String.eqb (note v) "" then []
  else ["NOTE:" +:+ escapeValue (note v) +:+ LF].

Definition birthdayWrites (v : VCard) : list string :=
  match birthday v with
  | Some d => ["BDAY:" +:+ Time.Format d +:+ LF]
  | None => []
  end.

Definition anniversaryWrites (v : VCard) : list string :=
  match anniversary v with
  | Some d =>
    if String.eqb (version v) Version40
    then ["ANNIVERSARY:" +:+ Time.Format d +:+ LF] else []
  | None => []
  end.

Section WritesOf.

Variable up : Z -> Z.

(** What the loop of writeCustomProperties writes for one entry. *)
Definition customWrite (kv : string * string) : list string :=
  if Strings.HasPrefix (ToUpper up (fst kv)) "X-"
     && negb (String.eqb (snd kv) "")
  then [foldLine (ToUpper up (fst kv) +:+ ":" +:+ escapeValue (snd kv)) +:+ LF]
  else [].

Definition customWrites (v : VCard) : list string :=
  flat_map customWrite (customProps v).

(** The builder of String after its last write. *)
Definition writes (v : VCard) : list string :=
  [ "BEGIN:VCARD" +:+ LF; "VERSION:" +:+ version v +:+ LF ]
  ++ nameWrites v ++ emailWrites v ++ phoneWrites v ++ addressWrites v
  ++ writeOrganizationProperties v [] ++ urlWrites v ++ photoWrites v
  ++ noteWrites v ++ birthdayWrites v ++ anniversaryWrites v
  ++ customWrites v ++ [ "END:VCARD" +:+ LF ].

End WritesOf.

(** Every write of the segment carries one of the tags [ts]. *)
Definition tagged (ts : list string) (seg : list string) : Prop :=
  Forall (fun w => In (tag w) ts) seg.

(** ** Contacts used as instances *)



(** A contact with the photo [p]. *)
Definition pictured (p : string) : VCard :=
  mkVCard Version30 (Name.mk "Doe" "John" "" "" "") [] [] []
    Organization.zero [] p "" None None [].

(** A contact with three custom entries: a lower-case X- key, an X- key
    with an empty value, and a key without the prefix. *)
Definition extended : VCard :=
  mkVCard Version30 (Name.mk "Doe" "John" "" "" "") [] [] []
    Organization.zero [] "" "" None None
    [("x-dept", "R;D"); ("X-EMPTY", ""); ("DEPT", "Eng")].

(** ** The formatted name, as specified *)

Definition present (s : string) : bool := negb (String.eqb s "").

(** The formatted name in the words of the specification: the parts that
    are set, joined by spaces; if that is empty, "Last, First" when both
    are present, else the one of First and Last that is present. *)
Definition formatted_name_spec (n : Name.t) : string :=
  let joined :=
    Strings.Join
      (List.filter present
         [Name.Prefix n; Name.First n; Name.Middle n; Name.Last n;
          Name.Suffix n]) " " in
  if String.eqb joined "" then
    if present (Name.Last n) && present (Name.First n)
    then Name.Last n +:+ ", " +:+ Name.First n
    else if present (Name.First n) then Name.First n
    else if present (Name.Last n) then Name.Last n
    else ""
  else joined.

(** ** Keys of custom properties *)

(** A name starts with X- whatever the case of its first letter. *)
Definition starts_X_dash_ci (name : string) : Prop :=
  exists a r, name = String a (String "-" r) /\ (a = "X" \/ a = "x")%char.

(** What the ASCII loop of [strings.ToUpper] makes of one byte. *)
Definition upperByte (c : ascii) : ascii :=
  let b := Utf8.byteZ c in
  if (97 <=? b) && (b <=? 122) then Utf8.Zbyte (b - 32) else c.

(** ** Escaped strings *)

(** Replacing a one-byte [old]. *)
Fixpoint subst1 (a : ascii) (new : string) (s : string) : string :=
  match s with
  | EmptyString => EmptyString
  | String c s' =>
    (if Ascii.eqb a c then new else String c EmptyString) +:+ subst1 a new s'
  end.

(** What escapeValue makes of one byte. *)
Definition escapeByte (c : ascii) : string :=
  if Ascii.eqb c "\" then "\\"
  else if Ascii.eqb c "," then "\,"
  else if Ascii.eqb c ";" then "\;"
  else if Ascii.eqb c "010" then "\n"
  else if Ascii.eqb c "013" then "\r"
  else String c "".

(** An escaped string read as tokens: a plain byte, or a backslash
    followed by a byte. *)
Inductive token := Plain (c : ascii) | Esc (y : ascii).

(** The bytes of a token and of a list of tokens. *)
Definition render1 (t : token) : string :=
  match t with
  | Plain c => String c ""
  | Esc y => String "\" (String y "")
  end.

Fixpoint render (ts : list token) : string :=
  match ts with
  | [] => ""
  | t :: ts' => render1 t +:+ render ts'
  end.

(** Neither a plain byte nor an escaped byte is a backslash. *)
Definition token_ok (t : token) : Prop :=
  match t with Plain c => c <> "\"%char | Esc y => y <> "\"%char end.

(** One pass of unescapeValue on tokens. *)
Definition unescape1 (x n : ascii) (t : token) : token :=
  match t with
  | Esc y => if Ascii.eqb x y then Plain n else t
  | Plain _ => t
  end.

(** The token of a byte other than the backslash in an escaped string. *)
Definition escapeToken (c : ascii) : token :=
  if Ascii.eqb c "," then Esc ","
  else if Ascii.eqb c ";" then Esc ";"
  else if Ascii.eqb c "010" then Esc "n"
  else if Ascii.eqb c "013" then Esc "r"
  else Plain c.

(** The string holds no backslash. *)
Fixpoint no_backslash (s : string) : bool :=
  match s with
  | EmptyString => true
  | String c s' => negb (Ascii.eqb c "\") && no_backslash s'
  end.

(** ** Folded lines *)

(** [strings.Repeat] *)
Fixpoint Repeat (s : string) (count : nat) : string :=
  match count with O => "" | S k => s +:+ Repeat s k end.

(** A line of 155 characters in 156 bytes: the two bytes of its 75th
    character lie on both sides of byte offset 75. *)
Definition straddling : string := Repeat "a" 74 +:+ "é" +:+ Repeat "a" 80.

(** Folding on characters: a line break and a space go in front of every
    75th character. [room] is the number of characters that still fit on
    the current line. *)
Fixpoint fold_chars (room : nat) (s : string) : string :=
  match s with
  | EmptyString => EmptyString
  | String c s' =>
    match room with
    | O => CR +:+ LF +:+ " " +:+ String c (fold_chars 74 s')
    | S r => String c (fold_chars r s')
    end
  end.

(** The room left on the line when the loop of foldLine is at offset [i]. *)
Definition room_at (i : nat) : nat :=
  if (i =? 0)%nat then 75%nat else ((75 - i mod 75) mod 75)%nat.

(** A contact whose TITLE line is [straddling]: 68 letters, a two-byte
    character at byte offsets 74 and 75 of the line, and 80 letters. *)
Definition titled : VCard :=
  mkVCard Version30 (Name.mk "Doe" "John" "" "" "") [] [] []
    (Organization.mk "" "" (Repeat "a" 68 +:+ "é" +:+ Repeat "a" 80) "")
    [] "" "" None None [].

(** ** A memory *)

(** A contact in memory: an email slice with spare capacity, a birthday
    and one custom property. *)
Definition memory : gmap nat Heap.cell :=
  <[ 0%nat := Heap.CCard
       (Heap.Card Version30 (Name.mk "Doe" "John" "" "" "")
          (Heap.Slice (Some 1%nat) 1 2) (Heap.Slice None 0 0)
          (Heap.Slice None 0 0) Organization.zero (Heap.Slice None 0 0)
          "" "" (Some 2%nat) None (Some 3%nat)) ]>
  (<[ 1%nat := Heap.CArray [Heap.EEmail (Email.mk "john@example.com" "" false);
                            Heap.EEmail Heap.Email_zero] ]>
  (<[ 2%nat := Heap.CTime (Time.mk 1990 1 2) ]>
  (<[ 3%nat := Heap.CMap {[ "X-TEST" := "value" ]} ]> ∅))).

(** The contact that [memory] holds at location 0. *)
Definition memory_contact : VCard :=
  mkVCard Version30 (Name.mk "Doe" "John" "" "" "")
    [Email.mk "john@example.com" "" false] [] [] Organization.zero [] "" ""
    (Some (Time.mk 1990 1 2)) None [("X-TEST", "value")].

(** * Properties *)

(** ** Validation *)

Lemma first_error_Some {A} (bad : A -> bool) (e : error) (l : list A) :
  first_error bad e l <> None <-> exists x, In x l /\ bad x = true.
Proof.
  induction l as [|x l IH]; simpl.
  - split; [congruence | intros (x & [] & _)].
  - destruct (bad x) eqn:Hx.
    + split; [eauto | congruence].
    + rewrite IH. split.
      * intros (y & Hy & Hb). eauto.
      * intros (y & [<- | Hy] & Hb); [congruence | eauto].
Qed.

Lemma first_error_value {A} (bad : A -> bool) (e e' : error) (l : list A) :
  first_error bad e l = Some e' -> e' = e.
Proof.
  induction l as [|x l IH]; simpl; [congruence |].
  destruct (bad x); [congruence | exact IH].
Qed.

Lemma eqb_empty_iff (s : string) : String.eqb s "" = true <-> s = "".
Proof. apply String.eqb_eq. Qed.

Lemma first_error_empty {A} (f : A -> string) (e : error) (l : list A) :
  first_error (fun x => String.eqb (f x) "") e l <> None
  <-> exists x, In x l /\ f x = "".
Proof.
  rewrite first_error_Some. split; intros (x & Hin & Hx); exists x; split;
    try assumption; now apply eqb_empty_iff.
Qed.

(** C4. Validate returns an error exactly when both the first and the last
    name are empty, or some email entry has an empty address, or some phone
    entry has an empty number. *)
Theorem Validate_error_iff (v : VCard) :
  Validate v <> None <->
  (Name.First (name v) = "" /\ Name.Last (name v) = "")
  \/ (exists email, In email (emails v) /\ Email.Address email = "")
  \/ (exists phone, In phone (phones v) /\ Phone.Number phone = "").
Proof.
  unfold Validate.
  pose proof (first_error_empty Email.Address
                (errorString "email address cannot be empty") (emails v)) as HE.
  pose proof (first_error_empty Phone.Number
                (errorString "phone number cannot be empty") (phones v)) as HP.
  destruct (String.eqb_spec (Name.First (name v)) "");
    destruct (String.eqb_spec (Name.Last (name v)) ""); cbn [andb];
    destruct (first_error _ _ (emails v));
    destruct (first_error _ _ (phones v));
    intuition congruence.
Qed.

Lemma first_error_None {A} (f : A -> string) (e : error) (l : list A) :
  (forall x, In x l -> f x <> "") ->
  first_error (fun x => String.eqb (f x) "") e l = None.
Proof.
  intros H. destruct (first_error _ e l) eqn:E; [exfalso | reflexivity].
  assert (HE : first_error (fun x => String.eqb (f x) "") e l <> None)
    by congruence.
  apply first_error_empty in HE as (x & Hin & Hx). exact (H x Hin Hx).
Qed.

(** A contact with a first or a last name and no empty email or phone
    entry is valid. *)
Corollary Validate_succeeds (v : VCard) :
  (Name.First (name v) <> "" \/ Name.Last (name v) <> "") ->
  (forall email, In email (emails v) -> Email.Address email <> "") ->
  (forall phone, In phone (phones v) -> Phone.Number phone <> "") ->
  Validate v = None.
Proof.
  intros Hn He Hp. unfold Validate.
  rewrite (first_error_None Email.Address) by assumption.
  rewrite (first_error_None Phone.Number) by assumption.
  destruct (String.eqb_spec (Name.First (name v)) "");
    destruct (String.eqb_spec (Name.Last (name v)) ""); cbn [andb];
    tauto.
Qed.

(** ** Failure of the serializer *)

(** C2, as stated, fails: the error of String is not the error of Validate
    but a new error that wraps it. *)
Lemma String_error_not_unchanged :
  ~ (forall v e, Validate v = Some e ->
       VCard_String asciiToUpper v = ("", Some e)).
Proof.
  intros H. specialize (H New _ eq_refl). discriminate H.
Qed.

(** C2, amended. When Validate returns an error, String returns the empty
    text together with an error that wraps the error of Validate: its
    message is the message of that error after the prefix
    "vcard validation failed: ", and unwrapping it gives that error. *)
Theorem String_validation_failure (up : Z -> Z) (v : VCard) (e : error) :
  Validate v = Some e ->
  exists e',
    VCard_String up v = ("", Some e')
    /\ Error e' = "vcard validation failed: " +:+ Error e
    /\ Unwrap e' = Some e.
Proof.
  intros HV. unfold VCard_String. rewrite HV. eexists. repeat split.
Qed.

Lemma String_validation_failure_witness :
  exists e',
    VCard_String asciiToUpper New = ("", Some e')
    /\ Error e' = "vcard validation failed: "
                  +:+ "vcard must have at least first name or last name"
    /\ Unwrap e' =
       Some (errorString "vcard must have at least first name or last name").
Proof.
  apply (String_validation_failure asciiToUpper New
           (errorString "vcard must have at least first name or last name")).
  reflexivity.
Defined.

(** ** The writes of the serializer *)

(** Strings: basic facts *)

Lemma append_assoc (s t u : string) : (s +:+ t) +:+ u = s +:+ t +:+ u.
Proof. induction s as [|c s IH]; [reflexivity |]. cbn. now rewrite <- IH. Qed.

Lemma append_nil_r (s : string) : s +:+ "" = s.
Proof. induction s as [|c s IH]; [reflexivity |]. cbn. now f_equal. Qed.

Lemma concat_nil_app (b1 b2 : list string) :
  String.concat "" (b1 ++ b2) = String.concat "" b1 +:+ String.concat "" b2.
Proof.
  induction b1 as [|w b1 IH]; [reflexivity |].
  destruct b1 as [|w' b1].
  - destruct b2 as [|w2 b2]; [symmetry; apply append_nil_r | reflexivity].
  - change (w +:+ "" +:+ String.concat "" ((w' :: b1) ++ b2)
            = (w +:+ "" +:+ String.concat "" (w' :: b1)) +:+ String.concat "" b2).
    rewrite IH, !append_assoc. reflexivity.
Qed.

Lemma Zbyte_byteZ (c : ascii) : Utf8.Zbyte (Utf8.byteZ c) = c.
Proof. destruct c as [[] [] [] [] [] [] [] []]; reflexivity. Qed.

Lemma Decode_ascii (c : ascii) (s : string) :
  (Utf8.byteZ c <? 128) = true ->
  Utf8.DecodeRuneInString (String c s) = (Utf8.byteZ c, 1%nat).
Proof. intros H. unfold Utf8.DecodeRuneInString. now rewrite H. Qed.

Lemma byteZ_range (c : ascii) : 0 <= Utf8.byteZ c < 256.
Proof. destruct c as [[] [] [] [] [] [] [] []]; vm_compute; split; congruence. Qed.

Lemma Encode_ascii (c : ascii) :
  (Utf8.byteZ c <? 128) = true ->
  Utf8.EncodeRune (Utf8.byteZ c) = String c "".
Proof.
  intros H. unfold Utf8.EncodeRune.
  pose proof (byteZ_range c) as [H0 _].
  apply Z.ltb_lt in H.
  replace (0 <=? Utf8.byteZ c) with true by (symmetry; apply Z.leb_le; lia).
  replace (Utf8.byteZ c <=? 127) with true by (symmetry; apply Z.leb_le; lia).
  cbn. now rewrite Zbyte_byteZ.
Qed.

Lemma foldLine_head2 (a b : ascii) (s : string) :
  (Utf8.byteZ a <? 128) = true -> (Utf8.byteZ b <? 128) = true ->
  exists r, foldLine (String a (String b s)) = String a (String b r).
Proof.
  intros Ha Hb. unfold foldLine.
  destruct (String.length _ <=? 75)%nat; [eauto |].
  cbn [foldLine_range]. rewrite (Decode_ascii a), (Decode_ascii b) by assumption.
  rewrite !Encode_ascii by assumption. cbn. eauto.
Qed.

Lemma tag_foldLine (a b : ascii) (s t : string) :
  (Utf8.byteZ a <? 128) = true -> (Utf8.byteZ b <? 128) = true ->
  tag (foldLine (String a (String b s)) +:+ t) = String a (String b "").
Proof.
  intros Ha Hb. destruct (foldLine_head2 a b s Ha Hb) as [r ->]. reflexivity.
Qed.

Lemma prefix_tag (p w : string) :
  (2 <= String.length p)%nat -> String.prefix p w = true -> tag w = tag p.
Proof.
  destruct p as [|a [|b p]]; cbn; try lia. intros _.
  destruct w as [|a' [|b' w]]; cbn; try congruence.
  - destruct (ascii_dec a a'); congruence.
  - destruct (ascii_dec a a'); [| congruence].
    destruct (ascii_dec b b'); congruence.
Qed.

Lemma fold_left_writes {A} (g : A -> list string)
      (step : Builder -> A -> Builder) (l : list A) (b : Builder) :
  (forall b x, step b x = b ++ g x) ->
  fold_left step l b = b ++ flat_map g l.
Proof.
  intros Hstep. revert b.
  induction l as [|x l IH]; intros b; cbn.
  - now rewrite app_nil_r.
  - rewrite IH, Hstep, <- app_assoc. reflexivity.
Qed.

(** Each writer appends its segment to the builder it is given. *)

Section Writes.

Variable up : Z -> Z.

Lemma writeNameProperties_writes v b :
  writeNameProperties v b = (b ++ nameWrites v, None).
Proof.
  unfold writeNameProperties, nameWrites, WriteString.
  destruct (negb _); [rewrite <- app_assoc |]; reflexivity.
Qed.






Lemma writeCustomProperties_writes v b :
  writeCustomProperties up v b = b ++ customWrites up v.
Proof.
  apply fold_left_writes. intros b' [k x]. unfold customWrite, WriteString.
  cbn [fst snd]. destruct (_ && _); [| rewrite app_nil_r]; reflexivity.
Qed.







End Writes.

(** *** Every write carries the tag of its property *)

Lemma tagged_nil ts : tagged ts [].
Proof. constructor. Qed.

Lemma tagged_app ts seg1 seg2 :
  tagged ts seg1 -> tagged ts seg2 -> tagged ts (seg1 ++ seg2).
Proof. intros H1 H2. apply Forall_app; split; assumption. Qed.

Lemma tagged_flat_map {A} ts (g : A -> list string) (l : list A) :
  (forall x, tagged ts (g x)) -> tagged ts (flat_map g l).
Proof.
  intros Hg. induction l as [|x l IH]; cbn; [constructor |].
  apply tagged_app; auto.
Qed.

Lemma tagged_one ts w : In (tag w) ts -> tagged ts [w].
Proof. intros H. repeat constructor. exact H. Qed.

Ltac tag_fold a b :=
  apply tagged_one; left; symmetry;
  exact (tag_foldLine a b _ _ eq_refl eq_refl).

Lemma nameWrites_tagged v : tagged ["N:"; "FN"] (nameWrites v).
Proof.
  unfold nameWrites. constructor; [left; reflexivity |].
  destruct (negb _); [apply tagged_one; right; left; reflexivity | constructor].
Qed.

Lemma emailWrites_tagged v : tagged ["EM"] (emailWrites v).
Proof. apply tagged_flat_map. intros e. tag_fold "E"%char "M"%char. Qed.

Lemma phoneWrites_tagged v : tagged ["TE"] (phoneWrites v).
Proof. apply tagged_flat_map. intros e. tag_fold "T"%char "E"%char. Qed.

Lemma addressWrites_tagged v : tagged ["AD"; "LA"] (addressWrites v).
Proof.
  apply tagged_flat_map. intros a. constructor.
  - left; symmetry. exact (tag_foldLine "A" "D" _ _ eq_refl eq_refl).
  - destruct (hasAddressData a); [| constructor].
    apply tagged_one. right; left; symmetry.
    exact (tag_foldLine "L" "A" _ _ eq_refl eq_refl).
Qed.

Lemma organizationWrites_tagged v :
  tagged ["OR"; "TI"; "RO"] (writeOrganizationProperties v []).
Proof.
  unfold writeOrganizationProperties, WriteString.
  destruct (negb (String.eqb (Organization.Name _) ""));
    destruct (negb (String.eqb (Organization.Title _) ""));
    destruct (negb (String.eqb (Organization.Role _) "")); cbn [app];
    unfold tagged; repeat match goal with |- Forall _ _ => constructor end.
  all: first
    [ left; symmetry; exact (tag_foldLine "O" "R" _ _ eq_refl eq_refl)
    | right; left; symmetry; exact (tag_foldLine "T" "I" _ _ eq_refl eq_refl)
    | right; right; left; symmetry;
      exact (tag_foldLine "R" "O" _ _ eq_refl eq_refl) ].
Qed.

Lemma urlWrites_tagged v : tagged ["UR"] (urlWrites v).
Proof. apply tagged_flat_map. intros e. tag_fold "U"%char "R"%char. Qed.

Lemma photoWrites_tagged v : tagged ["PH"] (photoWrites v).
Proof.
  unfold photoWrites, photoLine.
  destruct (String.eqb (photo v) ""); [constructor |].
  destruct (_ || _); [| destruct (Strings.HasPrefix _ _)];
    tag_fold "P"%char "H"%char.
Qed.

Lemma noteWrites_tagged v : tagged ["NO"] (noteWrites v).
Proof.
  unfold noteWrites. destruct (String.eqb (note v) ""); [constructor |].
  apply tagged_one. left. reflexivity.
Qed.

Lemma birthdayWrites_tagged v : tagged ["BD"] (birthdayWrites v).
Proof.
  unfold birthdayWrites. destruct (birthday v); [| constructor].
  apply tagged_one. left. reflexivity.
Qed.

Lemma anniversaryWrites_tagged v : tagged ["AN"] (anniversaryWrites v).
Proof.
  unfold anniversaryWrites.
  destruct (anniversary v); [destruct (String.eqb _ _) |]; try constructor.
  - left. reflexivity.
  - constructor.
Qed.

Lemma prefix_X_dash (s : string) :
  String.prefix "X-" s = true -> exists r, s = String "X" (String "-" r).
Proof.
  intros H. apply String.prefix_correct in H.
  destruct s as [|a [|b r]]; cbn in H; try discriminate H.
  injection H as -> ->. eauto.
Qed.

Lemma customWrites_tagged up v : tagged ["X-"] (customWrites up v).
Proof.
  apply tagged_flat_map. intros [k x]. unfold customWrite. cbn [fst snd].
  destruct (Strings.HasPrefix _ _) eqn:HP; [| constructor].
  destruct (negb _); [| constructor]. cbn [andb].
  apply prefix_X_dash in HP as [r ->]. tag_fold "X"%char "-"%char.
Qed.

(** A predicate that holds only of writes with the tag [t] selects nothing
    from a segment whose tags are all different from [t]. *)
Lemma filter_tagged_nil (P : string -> bool) (t : string) ts seg :
  (forall w, P w = true -> tag w = t) ->
  tagged ts seg -> ~ In t ts -> List.filter P seg = [].
Proof.
  intros HP Hseg Hn. induction Hseg as [|w seg Hw _ IH]; [reflexivity |].
  cbn. destruct (P w) eqn:HPw; [| exact IH].
  apply HP in HPw. subst t. contradiction.
Qed.

(** *** foldLine keeps a short ASCII head of the line *)

Lemma no_fold_before_75 (i : nat) :
  (i < 75)%nat -> (0 <? i)%nat && (i mod 75 =? 0)%nat = false.
Proof.
  intros Hi. destruct i as [|i]; [reflexivity |].
  rewrite Nat.mod_small by lia. reflexivity.
Qed.

Lemma foldLine_range_ascii_prefix (p s : string) (i : nat) :
  isASCII p = true -> (i + String.length p <= 75)%nat ->
  foldLine_range i 0 (p +:+ s)
  = p +:+ foldLine_range (i + String.length p) 0 s.
Proof.
  revert i. induction p as [|c p IH]; intros i Hp Hi.
  - cbn. now rewrite Nat.add_0_r.
  - cbn [isASCII] in Hp. cbn [String.length] in Hi.
    apply andb_true_iff in Hp as [Hc Hp].
    cbn [String.append foldLine_range].
    rewrite Decode_ascii by assumption. rewrite Encode_ascii by assumption.
    rewrite no_fold_before_75 by lia.
    cbn. rewrite (IH (S i) Hp) by lia.
    replace (S i + String.length p)%nat with (i + S (String.length p))%nat
      by lia.
    reflexivity.
Qed.

Lemma foldLine_ascii_prefix (p s : string) :
  isASCII p = true -> (String.length p <= 75)%nat ->
  exists r, foldLine (p +:+ s) = p +:+ r.
Proof.
  intros Hp Hl. unfold foldLine.
  destruct (String.length (p +:+ s) <=? 75)%nat; [eauto |].
  rewrite foldLine_range_ascii_prefix by (assumption || lia). eauto.
Qed.

Lemma prefix_append (p s : string) : String.prefix p (p +:+ s) = true.
Proof.
  induction p as [|c p IH]; cbn; [now destruct s |].
  destruct (ascii_dec c c); [exact IH | congruence].
Qed.

Lemma HasPrefix_foldLine (p s t : string) :
  isASCII p = true -> (String.length p <= 75)%nat ->
  Strings.HasPrefix (foldLine (p +:+ s) +:+ t) p = true.
Proof.
  intros Hp Hl. destruct (foldLine_ascii_prefix p s Hp Hl) as [r ->].
  unfold Strings.HasPrefix. rewrite append_assoc. apply prefix_append.
Qed.


Lemma header_tagged v :
  tagged ["BE"; "VE"] ["BEGIN:VCARD" +:+ LF; "VERSION:" +:+ version v +:+ LF].
Proof.
  constructor; [left; reflexivity |].
  constructor; [right; left; reflexivity | constructor].
Qed.

Lemma footer_tagged : tagged ["EN"] ["END:VCARD" +:+ LF].
Proof. constructor; [left; reflexivity | constructor]. Qed.

(** The writes of String that a predicate on one tag selects are found in
    the segment of that tag. *)
Ltac filter_segments HP :=
  unfold writes; rewrite !List.filter_app;
  repeat match goal with
  | |- context [List.filter ?P ?seg] =>
    lazymatch seg with
    | [] => fail
    | _ =>
      rewrite (filter_tagged_nil P _ _ seg HP
                 ltac:(first [ apply nameWrites_tagged
                             | apply emailWrites_tagged
                             | apply phoneWrites_tagged
                             | apply addressWrites_tagged
                             | apply organizationWrites_tagged
                             | apply urlWrites_tagged
                             | apply photoWrites_tagged
                             | apply noteWrites_tagged
                             | apply birthdayWrites_tagged
                             | apply anniversaryWrites_tagged
                             | apply customWrites_tagged
                             | apply header_tagged
                             | apply footer_tagged ])
                 ltac:(cbn; intuition discriminate))
    end
  end;
  cbn [app]; rewrite ?app_nil_r.







(** ** The frame of the output *)




(** ** The anniversary *)




(** ** The photo *)



(** The two scenarios of the photo. *)
Example photo_scenarios :
  photoWrites (pictured "https://x/y.jpg")
  = ["PHOTO;VALUE=uri:https://x/y.jpg" +:+ LF]
  /\ photoWrites (pictured "data:image/jpeg;base64,AAAA")
     = ["PHOTO;ENCODING=b:data:image/jpeg;base64,AAAA" +:+ LF].
Proof. split; reflexivity. Qed.

(** ** The formatted name *)

Lemma FormattedName_join (n : Name.t) :
  FormattedName n
  = Strings.Join
      (List.filter present
         [Name.Prefix n; Name.First n; Name.Middle n; Name.Last n;
          Name.Suffix n]) " ".
Proof.
  unfold FormattedName, present. cbn [List.filter].
  destruct (negb (String.eqb (Name.Prefix n) ""));
    destruct (negb (String.eqb (Name.First n) ""));
    destruct (negb (String.eqb (Name.Middle n) ""));
    destruct (negb (String.eqb (Name.Last n) ""));
    destruct (negb (String.eqb (Name.Suffix n) "")); reflexivity.
Qed.

Lemma fnValue_spec (n : Name.t) : fnValue n = formatted_name_spec n.
Proof.
  unfold fnValue, formatted_name_spec. rewrite <- FormattedName_join.
  unfold present.
  destruct (String.eqb_spec (FormattedName n) "") as [-> |]; [| reflexivity].
  destruct (negb (String.eqb (Name.Last n) ""));
    destruct (negb (String.eqb (Name.First n) "")); reflexivity.
Qed.

Lemma filter_writes_FN up v :
  List.filter (fun w => Strings.HasPrefix w "FN:") (writes up v)
  = if String.eqb (fnValue (name v)) "" then []
    else ["FN:" +:+ escapeValue (fnValue (name v)) +:+ LF].
Proof.
  assert (HP : forall w, Strings.HasPrefix w "FN:" = true -> tag w = "FN").
  { intros w H. apply (prefix_tag "FN:") in H; [exact H | cbn; lia]. }
  filter_segments HP.
  unfold nameWrites. cbn [List.filter].
  replace (Strings.HasPrefix ("N:" +:+ StructuredName (name v) +:+ LF) "FN:")
    with false by reflexivity.
  destruct (String.eqb (fnValue (name v)) ""); cbn [negb List.filter];
    [reflexivity |].
  replace (Strings.HasPrefix ("FN:" +:+ escapeValue (fnValue (name v)) +:+ LF)
             "FN:") with true by (symmetry; apply prefix_append).
  reflexivity.
Qed.

(** C8. writeNameProperties writes the N line and then the FN line, the
    latter only when the formatted name it computes is not empty; that name
    is the space-join of the non-empty parts among prefix, first, middle,
    last and suffix, in this order, and if the join is empty "Last, First"
    when both are present, else the one of First and Last that is present.
    Among the lines of String the FN line is that one or none. *)
Theorem FN_line_formatted_name (up : Z -> Z) (v : VCard) (b : Builder) :
  let fn := formatted_name_spec (name v) in
  writeNameProperties v b
  = (b ++ ("N:" +:+ StructuredName (name v) +:+ LF)
       :: (if String.eqb fn "" then []
           else ["FN:" +:+ escapeValue fn +:+ LF]), None)
  /\ List.filter (fun w => Strings.HasPrefix w "FN:") (writes up v)
     = (if String.eqb fn "" then [] else ["FN:" +:+ escapeValue fn +:+ LF]).
Proof.
  intros fn. unfold fn. rewrite <- fnValue_spec. split.
  - rewrite writeNameProperties_writes. unfold nameWrites.
    destruct (String.eqb (fnValue (name v)) ""); reflexivity.
  - apply filter_writes_FN.
Qed.

Lemma Join_space_empty (parts : list string) :
  Forall (fun s => s <> "") parts ->
  Strings.Join parts " " = "" -> parts = [].
Proof.
  intros Hne. destruct parts as [|x parts]; [reflexivity |].
  inversion_clear Hne as [|? ? Hx _]. intros HJ. exfalso.
  destruct x as [|c x]; [congruence |].
  destruct parts; cbn in HJ; discriminate HJ.
Qed.

(** The join is empty only when all five parts are: the fallback of
    writeNameProperties then finds neither First nor Last, and the FN value
    is FormattedName itself. *)
Lemma fnValue_FormattedName (n : Name.t) : fnValue n = FormattedName n.
Proof.
  unfold fnValue.
  destruct (String.eqb_spec (FormattedName n) "") as [HE |]; [| reflexivity].
  rewrite FormattedName_join in HE. apply Join_space_empty in HE.
  - unfold present in HE. cbn [List.filter] in HE.
    destruct (String.eqb (Name.Prefix n) ""); [| discriminate HE].
    destruct (String.eqb (Name.First n) ""); [| discriminate HE].
    destruct (String.eqb (Name.Middle n) ""); [| discriminate HE].
    destruct (String.eqb (Name.Last n) ""); [| discriminate HE].
    reflexivity.
  - apply List.Forall_forall. intros s Hs. apply filter_In in Hs as [_ Hs].
    unfold present in Hs. intros ->. discriminate Hs.
Qed.

(** ** UTF-8: the head of a decoded and of an encoded rune *)

Lemma lor_ge_128 (K Y : Z) : 0 <= Y -> 128 <= K -> 128 <= Z.lor K Y.
Proof.
  intros HY HK.
  destruct (Z_lt_le_dec (Z.lor K Y) 128) as [Hlt |]; [exfalso | assumption].
  assert (H0 : 0 <= Z.lor K Y) by (apply Z.lor_nonneg; lia).
  assert (HL : Z.log2 (Z.lor K Y) = Z.max (Z.log2 K) (Z.log2 Y))
    by (apply Z.log2_lor; lia).
  assert (H7 : 7 <= Z.log2 K)
    by (change 7 with (Z.log2 128); apply Z.log2_le_mono; lia).
  assert (Hnz : Z.lor K Y <> 0).
  { intros E. rewrite E in HL. cbn in HL. lia. }
  assert (Z.log2 (Z.lor K Y) < 7) by (apply Z.log2_lt_pow2; [lia | exact Hlt]).
  lia.
Qed.

Lemma land_low_bits (x : Z) (n : Z) :
  0 <= n -> Z.land x (Z.ones n) = x mod 2 ^ n.
Proof. intros Hn. now apply Z.land_ones. Qed.

Ltac low_bits :=
  repeat match goal with
  | |- context [Z.land ?x 63] =>
    change (Z.land x 63) with (Z.land x (Z.ones 6));
    rewrite (land_low_bits x 6) by lia;
    replace (2 ^ 6) with 64 by reflexivity
  | |- context [Z.land ?x 31] =>
    change (Z.land x 31) with (Z.land x (Z.ones 5));
    rewrite (land_low_bits x 5) by lia;
    replace (2 ^ 5) with 32 by reflexivity
  | |- context [Z.land ?x 15] =>
    change (Z.land x 15) with (Z.land x (Z.ones 4));
    rewrite (land_low_bits x 4) by lia;
    replace (2 ^ 4) with 16 by reflexivity
  | |- context [Z.land ?x 7] =>
    change (Z.land x 7) with (Z.land x (Z.ones 3));
    rewrite (land_low_bits x 3) by lia;
    replace (2 ^ 3) with 8 by reflexivity
  end.

(** The bits that the lead byte and the second byte of an accepted
    sequence give to the rune put it above the ASCII range. *)
Lemma lead_bits (s0 s1 sz lo hi : Z) :
  Utf8.first s0 = Some (sz, lo, hi) -> lo <= s1 <= hi ->
  (sz = 2 /\ 128 <= Z.shiftl (Z.land s0 31) 6)
  \/ (sz = 3 /\ 128 <= Z.lor (Z.shiftl (Z.land s0 15) 12)
                             (Z.shiftl (Z.land s1 63) 6))
  \/ (sz = 4 /\ 128 <= Z.lor (Z.shiftl (Z.land s0 7) 18)
                             (Z.shiftl (Z.land s1 63) 12)).
Proof.
  unfold Utf8.first. intros HF Hs1.
  repeat match type of HF with
  | (if ?c then _ else _) = _ =>
    let E := fresh "E" in destruct c eqn:E; [| ]
  end; try discriminate HF; injection HF as <- <- <-.
  all: repeat match goal with
  | H : (_ <? _) = _ |- _ => apply Z.ltb_lt in H || apply Z.ltb_ge in H
  | H : (_ <=? _) = _ |- _ => apply Z.leb_le in H || apply Z.leb_gt in H
  | H : (_ =? _) = _ |- _ => apply Z.eqb_eq in H || apply Z.eqb_neq in H
  end.
  1: left.
  2-5: right; left.
  6-8: right; right.
  all: split; [reflexivity |].
  all: rewrite ?Z.shiftl_mul_pow2 by lia.
  1: low_bits; Z.div_mod_to_equations; lia.
  all: first
    [ apply lor_ge_128;
      [ apply Z.mul_nonneg_nonneg; [apply Z.land_nonneg; lia | lia]
      | low_bits; Z.div_mod_to_equations; lia ]
    | rewrite Z.lor_comm; apply lor_ge_128;
      [ apply Z.mul_nonneg_nonneg; [apply Z.land_nonneg; lia | lia]
      | low_bits; Z.div_mod_to_equations; lia ] ].
Qed.

(** A decoded rune is the first byte itself, of width one, when that byte
    is ASCII, and is not an ASCII rune otherwise. *)
Lemma Decode_head (a : ascii) (t : string) :
  (Utf8.byteZ a < 128
   /\ Utf8.DecodeRuneInString (String a t) = (Utf8.byteZ a, 1%nat))
  \/ (128 <= Utf8.byteZ a
      /\ 128 <= fst (Utf8.DecodeRuneInString (String a t))).
Proof.
  destruct (Z.ltb_spec (Utf8.byteZ a) 128) as [Hlt | Hge].
  - left. split; [assumption |]. apply Decode_ascii. now apply Z.ltb_lt.
  - right. split; [assumption |].
    unfold Utf8.DecodeRuneInString.
    replace (Utf8.byteZ a <? 128) with false by (symmetry; now apply Z.ltb_ge).
    destruct (Utf8.first (Utf8.byteZ a)) as [[[sz lo] hi] |] eqn:HF;
      [| cbn; unfold Utf8.RuneError; lia].
    destruct t as [|c1 t1]; [cbn; unfold Utf8.RuneError; lia |].
    destruct ((Utf8.byteZ c1 <? lo) || (hi <? Utf8.byteZ c1)) eqn:Hacc;
      [cbn; unfold Utf8.RuneError; lia |].
    apply orb_false_iff in Hacc as [H1 H2].
    apply Z.ltb_ge in H1, H2.
    pose proof (byteZ_range c1) as Hc1.
    destruct (lead_bits _ (Utf8.byteZ c1) _ _ _ HF (conj H1 H2))
      as [[-> HK] | [[-> HK] | [-> HK]]].
    + cbn [Z.leb Z.compare Pos.compare Pos.compare_cont fst].
      apply lor_ge_128; [apply Z.land_nonneg; lia | exact HK].
    + replace (3 <=? 2) with false by reflexivity.
      destruct t1 as [|c2 t2]; [cbn; unfold Utf8.RuneError; lia |].
      destruct (negb (Utf8.cont (Utf8.byteZ c2)));
        [cbn; unfold Utf8.RuneError; lia |].
      replace (3 <=? 3) with true by reflexivity. cbn [fst].
      apply lor_ge_128; [apply Z.land_nonneg; lia | exact HK].
    + replace (4 <=? 2) with false by reflexivity.
      destruct t1 as [|c2 t2]; [cbn; unfold Utf8.RuneError; lia |].
      destruct (negb (Utf8.cont (Utf8.byteZ c2)));
        [cbn; unfold Utf8.RuneError; lia |].
      replace (4 <=? 3) with false by reflexivity.
      destruct t2 as [|c3 t3]; [cbn; unfold Utf8.RuneError; lia |].
      destruct (negb (Utf8.cont (Utf8.byteZ c3)));
        [cbn; unfold Utf8.RuneError; lia |].
      cbn [fst].
      apply lor_ge_128; [apply Z.land_nonneg; lia |].
      apply lor_ge_128; [| exact HK].
      apply Z.shiftl_nonneg, Z.land_nonneg. lia.
Qed.

Lemma Decode_nonneg (a : ascii) (t : string) :
  0 <= fst (Utf8.DecodeRuneInString (String a t)).
Proof.
  destruct (Decode_head a t) as [[_ ->] | [_ H]]; [| lia].
  cbn. apply byteZ_range.
Qed.

Lemma byteZ_Zbyte (z : Z) : Utf8.byteZ (Utf8.Zbyte z) = Z.land z 255.
Proof.
  unfold Utf8.byteZ, Utf8.Zbyte.
  assert (H : 0 <= Z.land z 255 < 256).
  { change 255 with (Z.ones 8). rewrite Z.land_ones by lia.
    apply Z.mod_pos_bound. reflexivity. }
  rewrite N_ascii_embedding by lia. lia.
Qed.

Lemma byteZ_inj (a b : ascii) : Utf8.byteZ a = Utf8.byteZ b -> a = b.
Proof. intros H. rewrite <- (Zbyte_byteZ a), <- (Zbyte_byteZ b). now f_equal. Qed.

Lemma ascii_bit7 (k : ascii) :
  Utf8.byteZ k < 128 -> Z.testbit (Utf8.byteZ k) 7 = false.
Proof.
  destruct k as [[] [] [] [] [] [] [] []]; intros H; try reflexivity;
    vm_compute in H; discriminate H.
Qed.

Lemma lead_bit7 (C y : Z) :
  Z.testbit C 7 = true ->
  Z.testbit (Utf8.byteZ (Utf8.Zbyte (Z.lor C y))) 7 = true.
Proof.
  intros HC. rewrite byteZ_Zbyte, Z.land_spec, Z.lor_spec, HC. reflexivity.
Qed.

(** The first byte of an encoded rune is an ASCII byte [k] only for the
    rune [k] itself, which is encoded as that one byte. *)
Lemma Encode_head_ascii (x : Z) (k : ascii) :
  0 <= x -> Utf8.byteZ k < 128 ->
  exists h r, Utf8.EncodeRune x = String h r
              /\ (h = k <-> x = Utf8.byteZ k) /\ (h = k -> r = "").
Proof.
  intros Hx Hk. unfold Utf8.EncodeRune.
  assert (Hhigh : forall C y r,
             Z.testbit C 7 = true -> 128 <= x ->
             exists h r', String (Utf8.Zbyte (Z.lor C y)) r = String h r'
                          /\ (h = k <-> x = Utf8.byteZ k) /\ (h = k -> r' = "")).
  { intros C y r HC Hge. do 2 eexists. split; [reflexivity |].
    assert (Hne : Utf8.Zbyte (Z.lor C y) <> k).
    { intros E. pose proof (lead_bit7 C y HC) as Hb. rewrite E in Hb.
      rewrite ascii_bit7 in Hb by assumption. discriminate Hb. }
    split; [split; [contradiction | lia] | contradiction]. }
  destruct ((0 <=? x) && (x <=? 127)) eqn:H1.
  - apply andb_true_iff in H1 as [_ H1]. apply Z.leb_le in H1.
    do 2 eexists. split; [reflexivity |]. split; [split | reflexivity].
    + intros <-. rewrite byteZ_Zbyte.
      change 255 with (Z.ones 8). rewrite Z.land_ones by lia.
      rewrite Z.mod_small; [reflexivity |].
      replace (2 ^ 8) with 256 by reflexivity. lia.
    + intros ->. apply Zbyte_byteZ.
  - assert (Hge : 128 <= x).
    { apply andb_false_iff in H1 as [H1 | H1];
        [apply Z.leb_gt in H1 | apply Z.leb_gt in H1]; lia. }
    destruct ((0 <=? x) && (x <=? 2047)); [now apply Hhigh |].
    destruct ((x <? 0) || (Utf8.MaxRune <? x)
              || ((55296 <=? x) && (x <=? 57343)));
      [now apply Hhigh |].
    destruct (x <=? 65535); now apply Hhigh.
Qed.

(** ** Upper-casing and the prefix X- *)

Lemma asciiUpper_cons c s :
  asciiUpper (String c s) = String (upperByte c) (asciiUpper s).
Proof. reflexivity. Qed.

Lemma upperByte_X (c : ascii) :
  upperByte c = "X"%char <-> (c = "X" \/ c = "x")%char.
Proof.
  destruct c as [[] [] [] [] [] [] [] []]; vm_compute;
    (split; [intros H; first [discriminate H | now left | now right]
            | intros [H | H]; first [discriminate H | reflexivity]]).
Qed.

Lemma upperByte_dash (c : ascii) : upperByte c = "-"%char <-> c = "-"%char.
Proof.
  destruct c as [[] [] [] [] [] [] [] []]; vm_compute;
    (split; intros H; first [discriminate H | reflexivity]).
Qed.

Lemma asciiUpper_no_lower (s : string) : hasLower s = false -> asciiUpper s = s.
Proof.
  induction s as [|c s IH]; [reflexivity |]. cbn [hasLower].
  intros H. apply orb_false_iff in H as [Hc Hs].
  rewrite asciiUpper_cons, IH by assumption. unfold upperByte. now rewrite Hc.
Qed.

Lemma asciiUpper_X_dash (name : string) :
  (exists r', asciiUpper name = String "X" (String "-" r'))
  <-> starts_X_dash_ci name.
Proof.
  unfold starts_X_dash_ci. split.
  - intros [r' H]. destruct name as [|a [|b r]]; try discriminate H.
    rewrite !asciiUpper_cons in H. injection H as Ha Hb _.
    apply (proj1 (upperByte_X a)) in Ha.
    apply (proj1 (upperByte_dash b)) in Hb. subst b. eauto.
  - intros (a & r & -> & Ha). rewrite !asciiUpper_cons.
    apply (proj2 (upperByte_X a)) in Ha. rewrite Ha.
    rewrite (proj2 (upperByte_dash "-") eq_refl). eauto.
Qed.

Lemma concat_nil_cons (x : string) (l : list string) :
  String.concat "" (x :: l) = x +:+ String.concat "" l.
Proof. exact (concat_nil_app [x] l). Qed.

Lemma Decode_is (k a : ascii) (t : string) :
  Utf8.byteZ k < 128 ->
  fst (Utf8.DecodeRuneInString (String a t)) = Utf8.byteZ k <-> a = k.
Proof.
  intros Hk. destruct (Decode_head a t) as [[Ha E] | [Ha Hr]].
  - rewrite E. cbn [fst]. split; [apply byteZ_inj | now intros ->].
  - split; [lia | intros ->; lia].
Qed.

Section UpperCase.

Variable up : Z -> Z.

(** What the encoder needs of [unicode.ToUpper]: it maps runes to runes,
    only x and X to X, and only the hyphen to the hyphen. *)
Hypothesis up_nonneg : forall r, 0 <= r -> 0 <= up r.
Hypothesis up_X : forall r, 0 <= r -> (up r = 88 <-> r = 88 \/ r = 120).
Hypothesis up_dash : forall r, 0 <= r -> (up r = 45 <-> r = 45).

Lemma Map_nil : Map up "" = "".
Proof. reflexivity. Qed.

(** The image of a string under Map starts with the ASCII byte [k] only
    if its first rune is mapped to [k]; what follows is then the image of
    the rest of the string. *)
Lemma Map_head (a : ascii) (t : string) (k : ascii) :
  Utf8.byteZ k < 128 ->
  exists h r,
    Map up (String a t) = String h r
    /\ (h = k <-> up (fst (Utf8.DecodeRuneInString (String a t))) = Utf8.byteZ k)
    /\ (h = k -> snd (Utf8.DecodeRuneInString (String a t)) = 1%nat ->
        r = Map up t).
Proof.
  intros Hk. unfold Map, Utf8.runes. cbn [Utf8.runes_from].
  pose proof (Decode_nonneg a t) as H0.
  destruct (Utf8.DecodeRuneInString (String a t)) as [r0 w0] eqn:HD.
  cbn [fst snd] in *. cbn [List.map]. rewrite concat_nil_cons.
  pose proof (up_nonneg r0 H0) as Hup.
  replace (0 <=? up r0) with true by (symmetry; now apply Z.leb_le).
  destruct (Encode_head_ascii (up r0) k Hup Hk) as (h & r & -> & Hh & Hr).
  exists h, (r +:+ String.concat ""
                 (List.map (fun c => if 0 <=? up c then Utf8.EncodeRune (up c)
                                     else "")
                           (Utf8.runes_from (w0 - 1) t))).
  split; [reflexivity |]. split; [exact Hh |].
  intros E ->. now rewrite (Hr E).
Qed.

Lemma Map_X_dash (name : string) :
  (exists r', Map up name = String "X" (String "-" r'))
  <-> starts_X_dash_ci name.
Proof.
  unfold starts_X_dash_ci. split.
  - intros [r' H]. destruct name as [|a t]; [discriminate H |].
    destruct (Map_head a t "X" ltac:(reflexivity)) as (h & r & E & Hh & Hr).
    rewrite E in H. injection H as -> ->.
    pose proof (proj1 Hh eq_refl) as HX.
    apply (proj1 (up_X _ (Decode_nonneg a t))) in HX.
    assert (Ha : (a = "X" \/ a = "x")%char).
    { destruct HX as [HX | HX];
        [ left; apply (proj1 (Decode_is "X" a t ltac:(reflexivity)))
        | right; apply (proj1 (Decode_is "x" a t ltac:(reflexivity))) ];
        exact HX. }
    assert (Hw : snd (Utf8.DecodeRuneInString (String a t)) = 1%nat)
      by (destruct Ha as [-> | ->]; reflexivity).
    specialize (Hr eq_refl Hw).
    destruct t as [|b t']; [discriminate Hr |].
    destruct (Map_head b t' "-" ltac:(reflexivity)) as (h' & r2 & E' & Hh' & _).
    rewrite E' in Hr. injection Hr as Hh1 _. symmetry in Hh1.
    pose proof (proj1 Hh' Hh1) as HD.
    apply (proj1 (up_dash _ (Decode_nonneg b t'))) in HD.
    apply (proj1 (Decode_is "-" b t' ltac:(reflexivity))) in HD.
    subst b. eauto.
  - intros (a & r & -> & Ha).
    destruct (Map_head a (String "-" r) "X" ltac:(reflexivity))
      as (h & r1 & E & Hh & Hr).
    assert (HD : Utf8.DecodeRuneInString (String a (String "-" r))
                 = (Utf8.byteZ a, 1%nat))
      by (destruct Ha as [-> | ->]; reflexivity).
    rewrite HD in Hh, Hr. cbn [fst snd] in Hh, Hr.
    assert (HX : h = "X"%char).
    { apply Hh. apply up_X; [apply byteZ_range |].
      destruct Ha as [-> | ->]; [now left | now right]. }
    rewrite E, HX, (Hr HX eq_refl).
    destruct (Map_head "-" r "-" ltac:(reflexivity)) as (h' & r2 & E' & Hh' & _).
    rewrite E'. replace h' with "-"%char; [eauto |].
    symmetry. apply Hh'. change (up 45 = 45). now apply up_dash.
Qed.

(** The test of writeCustomProperties on the key holds exactly of the names
    that start with X- or x-. *)
Lemma ToUpper_X_dash (name : string) :
  Strings.HasPrefix (ToUpper up name) "X-" = true <-> starts_X_dash_ci name.
Proof.
  assert (HP : forall s, Strings.HasPrefix s "X-" = true
                         <-> exists r', s = String "X" (String "-" r')).
  { intros s. split; [apply prefix_X_dash |].
    intros [r' ->]. exact (prefix_append "X-" r'). }
  rewrite HP. unfold ToUpper.
  destruct (isASCII name); [| apply Map_X_dash].
  destruct (hasLower name) eqn:HL; [apply asciiUpper_X_dash |].
  pose proof (asciiUpper_X_dash name) as H.
  now rewrite (asciiUpper_no_lower name HL) in H.
Qed.

End UpperCase.

(** ** Custom properties *)

Lemma customWrite_prefixed up kv :
  List.filter (fun w => Strings.HasPrefix w "X-") (customWrite up kv)
  = customWrite up kv.
Proof.
  unfold customWrite.
  destruct (Strings.HasPrefix (ToUpper up (fst kv)) "X-") eqn:HP;
    [| reflexivity].
  destruct (negb (String.eqb (snd kv) "")); [| reflexivity].
  cbn [andb List.filter].
  apply prefix_X_dash in HP as [r ->].
  replace (Strings.HasPrefix _ "X-") with true; [reflexivity |].
  symmetry. exact (HasPrefix_foldLine "X-" _ _ eq_refl ltac:(cbn; lia)).
Qed.

Lemma filter_writes_X up v :
  List.filter (fun w => Strings.HasPrefix w "X-") (writes up v)
  = customWrites up v.
Proof.
  assert (HP : forall w, Strings.HasPrefix w "X-" = true -> tag w = "X-").
  { intros w H. apply (prefix_tag "X-") in H; [exact H | cbn; lia]. }
  filter_segments HP.
  unfold customWrites. induction (customProps v) as [|kv l IH]; [reflexivity |].
  cbn [flat_map]. now rewrite List.filter_app, customWrite_prefixed, IH.
Qed.

(** C10. writeCustomProperties goes through the entries of the map and
    writes one line for an entry exactly when its key starts with X- in
    either case and its value is not empty: the upper-cased key, a colon
    and the escaped value, folded. An entry with an X- key and an empty
    value writes nothing. These lines are the X- lines of String. *)
Theorem custom_property_emitted_iff (up : Z -> Z) (v : VCard) (b : Builder) :
  (forall r, 0 <= r -> 0 <= up r) ->
  (forall r, 0 <= r -> (up r = 88 <-> r = 88 \/ r = 120)) ->
  (forall r, 0 <= r -> (up r = 45 <-> r = 45)) ->
  writeCustomProperties up v b = b ++ flat_map (customWrite up) (customProps v)
  /\ List.filter (fun w => Strings.HasPrefix w "X-") (writes up v)
     = flat_map (customWrite up) (customProps v)
  /\ forall name value,
       (customWrite up (name, value) <> []
        <-> starts_X_dash_ci name /\ value <> "")
       /\ (starts_X_dash_ci name /\ value <> "" ->
           customWrite up (name, value)
           = [foldLine (ToUpper up name +:+ ":" +:+ escapeValue value) +:+ LF])
       /\ (value = "" -> customWrite up (name, value) = []).
Proof.
  intros H1 H2 H3.
  split; [apply writeCustomProperties_writes |].
  split; [apply filter_writes_X |].
  intros key value. unfold customWrite. cbn [fst snd].
  pose proof (ToUpper_X_dash up H1 H2 H3 key) as HK.
  destruct (Strings.HasPrefix (ToUpper up key) "X-");
    destruct (String.eqb_spec value "") as [-> | Hv]; cbn [andb negb].
  all: repeat split; intros; try tauto; try congruence.
  all: exfalso;
    match goal with
    | H : starts_X_dash_ci _ /\ _ |- _ =>
      destruct H as [Hk _]; apply HK in Hk; discriminate Hk
    end.
Qed.

Lemma asciiToUpper_nonneg r : 0 <= r -> 0 <= asciiToUpper r.
Proof.
  unfold asciiToUpper. intros H.
  destruct ((97 <=? r) && (r <=? 122)) eqn:E; [| assumption].
  apply andb_true_iff in E as [E _]. apply Z.leb_le in E. lia.
Qed.

Lemma asciiToUpper_X r : asciiToUpper r = 88 <-> r = 88 \/ r = 120.
Proof.
  unfold asciiToUpper.
  destruct ((97 <=? r) && (r <=? 122)) eqn:E.
  - apply andb_true_iff in E as [E1 E2]. apply Z.leb_le in E1, E2. lia.
  - apply andb_false_iff in E as [E | E]; apply Z.leb_gt in E; lia.
Qed.

Lemma asciiToUpper_dash r : asciiToUpper r = 45 <-> r = 45.
Proof.
  unfold asciiToUpper.
  destruct ((97 <=? r) && (r <=? 122)) eqn:E.
  - apply andb_true_iff in E as [E1 E2]. apply Z.leb_le in E1, E2. lia.
  - apply andb_false_iff in E as [E | E]; apply Z.leb_gt in E; lia.
Qed.

Lemma custom_property_emitted_iff_witness :
  writeCustomProperties asciiToUpper extended []
  = [] ++ flat_map (customWrite asciiToUpper) (customProps extended)
  /\ List.filter (fun w => Strings.HasPrefix w "X-")
       (writes asciiToUpper extended)
     = flat_map (customWrite asciiToUpper) (customProps extended)
  /\ forall name value,
       (customWrite asciiToUpper (name, value) <> []
        <-> starts_X_dash_ci name /\ value <> "")
       /\ (starts_X_dash_ci name /\ value <> "" ->
           customWrite asciiToUpper (name, value)
           = [foldLine (ToUpper asciiToUpper name +:+ ":" +:+ escapeValue value)
              +:+ LF])
       /\ (value = "" -> customWrite asciiToUpper (name, value) = []).
Proof.
  apply (custom_property_emitted_iff asciiToUpper extended []).
  - exact asciiToUpper_nonneg.
  - intros r _. exact (asciiToUpper_X r).
  - intros r _. exact (asciiToUpper_dash r).
Defined.

Example custom_properties_extended :
  flat_map (customWrite asciiToUpper) (customProps extended)
  = ["X-DEPT:R\;D" +:+ LF].
Proof. reflexivity. Qed.


(** ** Escaping and unescaping *)

(** C1. The value made of a backslash followed by the letter n is escaped
    to two backslashes and n, and unescapeValue turns that into a line
    feed: the round trip does not give the value back. *)
Theorem unescape_escape_backslash_n :
  escapeValue (BSL +:+ "n") = BSL +:+ BSL +:+ "n"
  /\ unescapeValue (escapeValue (BSL +:+ "n")) = LF
  /\ unescapeValue (escapeValue (BSL +:+ "n")) <> BSL +:+ "n".
Proof. repeat split. discriminate. Qed.

(** The same happens with a backslash before r or t. *)
Example unescape_escape_backslash_t :
  unescapeValue (escapeValue (BSL +:+ "t")) = TAB
  /\ unescapeValue (escapeValue (BSL +:+ "r")) = CR.
Proof. split; reflexivity. Qed.

(** *** Escaping works character by character *)

Lemma ReplaceAll_single (a : ascii) (new s : string) :
  Strings.ReplaceAll s (String a "") new = subst1 a new s.
Proof.
  unfold Strings.ReplaceAll. induction s as [|c s IH]; [reflexivity |].
  cbn [Strings.replace_from subst1 String.prefix String.length Nat.sub].
  destruct (ascii_dec a c) as [-> | Hne].
  - rewrite Ascii.eqb_refl.
    replace (String.prefix "" s) with true by (now destruct s).
    now rewrite IH.
  - replace (Ascii.eqb a c) with false
      by (symmetry; now apply Ascii.eqb_neq).
    cbn. now rewrite IH.
Qed.

Lemma subst1_app (a : ascii) (new s t : string) :
  subst1 a new (s +:+ t) = subst1 a new s +:+ subst1 a new t.
Proof.
  induction s as [|c s IH]; [reflexivity |].
  cbn [String.append subst1]. now rewrite IH, append_assoc.
Qed.

Lemma escapeValue_subst (s : string) :
  escapeValue s
  = subst1 "013" (BSL +:+ "r")
      (subst1 "010" (BSL +:+ "n")
         (subst1 ";" (BSL +:+ ";")
            (subst1 "," (BSL +:+ ",") (subst1 "\" (BSL +:+ BSL) s)))).
Proof.
  unfold escapeValue, BSL, LF, CR. now rewrite !ReplaceAll_single.
Qed.

(** escapeValue is a homomorphism of strings. *)
Lemma escapeValue_app (s t : string) :
  escapeValue (s +:+ t) = escapeValue s +:+ escapeValue t.
Proof. rewrite !escapeValue_subst. now rewrite !subst1_app. Qed.

Lemma escapeValue_byte (c : ascii) : escapeValue (String c "") = escapeByte c.
Proof. destruct c as [[] [] [] [] [] [] [] []]; reflexivity. Qed.

Lemma escapeValue_cons (c : ascii) (s : string) :
  escapeValue (String c s) = escapeByte c +:+ escapeValue s.
Proof.
  change (String c s) with (String c "" +:+ s).
  now rewrite escapeValue_app, escapeValue_byte.
Qed.

(** *** Unescaping a string without backslashes *)

Lemma ReplaceAll_tokens (x n : ascii) (ts : list token) :
  Forall token_ok ts ->
  Strings.ReplaceAll (render ts) (String "\" (String x "")) (String n "")
  = render (List.map (unescape1 x n) ts).
Proof.
  unfold Strings.ReplaceAll. intros Hok.
  induction Hok as [|t ts Ht _ IH]; [reflexivity |].
  destruct t as [c | y]; cbn [render render1 List.map unescape1 String.append].
  - cbn [Strings.replace_from String.prefix].
    destruct (ascii_dec "\" c) as [E | _]; [now symmetry in E |].
    now rewrite IH.
  - cbn [Strings.replace_from String.prefix String.length Nat.sub].
    destruct (ascii_dec "\" "\") as [_ | N]; [| congruence].
    destruct (ascii_dec x y) as [-> | Hne].
    + rewrite Ascii.eqb_refl.
      replace (String.prefix "" (render ts)) with true
        by (now destruct (render ts)).
      cbn [render1 String.append]. now rewrite IH.
    + replace (Ascii.eqb x y) with false
        by (symmetry; now apply Ascii.eqb_neq).
      destruct (ascii_dec "\" y) as [E | _]; [now symmetry in E |].
      cbn [render1 String.append]. now rewrite IH.
Qed.

Lemma unescape1_ok (x n : ascii) (ts : list token) :
  n <> "\"%char -> Forall token_ok ts ->
  Forall token_ok (List.map (unescape1 x n) ts).
Proof.
  intros Hn Hok. induction Hok as [|t ts Ht _ IH]; constructor; [| exact IH].
  destruct t as [c | y]; unfold unescape1; [exact Ht |].
  destruct (Ascii.eqb x y); [exact Hn | exact Ht].
Qed.

Lemma unescape1_bsl_id (n : ascii) (ts : list token) :
  Forall token_ok ts -> List.map (unescape1 "\" n) ts = ts.
Proof.
  intros Hok. induction Hok as [|t ts Ht _ IH]; [reflexivity |].
  cbn [List.map]. rewrite IH. f_equal.
  destruct t as [c | y]; [reflexivity |]. unfold unescape1, token_ok in *.
  destruct (Ascii.eqb_spec "\" y) as [E | _]; [now symmetry in E | reflexivity].
Qed.

Lemma escapeValue_tokens (s : string) :
  no_backslash s = true ->
  escapeValue s = render (List.map escapeToken (list_ascii_of_string s))
  /\ Forall token_ok (List.map escapeToken (list_ascii_of_string s)).
Proof.
  induction s as [|c s IH]; [now split; [| constructor] |].
  cbn [no_backslash]. intros H. apply andb_true_iff in H as [Hc Hs].
  destruct (IH Hs) as [IH1 IH2]. apply negb_true_iff in Hc.
  cbn [list_ascii_of_string List.map render]. split.
  - rewrite escapeValue_cons, IH1. f_equal.
    unfold escapeByte, escapeToken. rewrite Hc.
    repeat match goal with
    | |- context [Ascii.eqb c ?k] => destruct (Ascii.eqb c k); [reflexivity |]
    end.
    reflexivity.
  - constructor; [| exact IH2].
    unfold escapeToken. apply Ascii.eqb_neq in Hc.
    repeat match goal with
    | |- context [Ascii.eqb c ?k] => destruct (Ascii.eqb c k); [discriminate |]
    end.
    exact Hc.
Qed.

Lemma unescape_escapeToken (c : ascii) :
  unescape1 "t" "009"
    (unescape1 "r" "013"
       (unescape1 "n" "010"
          (unescape1 ";" ";" (unescape1 "," "," (escapeToken c)))))
  = Plain c.
Proof. destruct c as [[] [] [] [] [] [] [] []]; reflexivity. Qed.

Lemma render_Plain (s : string) :
  render (List.map Plain (list_ascii_of_string s)) = s.
Proof. induction s as [|c s IH]; [reflexivity |]. cbn. now rewrite IH. Qed.

(** A value without a backslash is given back by unescapeValue after
    escapeValue. *)
Lemma unescape_escape_no_backslash (s : string) :
  no_backslash s = true -> unescapeValue (escapeValue s) = s.
Proof.
  intros Hs. destruct (escapeValue_tokens s Hs) as [-> Hok].
  unfold unescapeValue, BSL, LF, CR, TAB.
  cbn [String.append].
  rewrite ReplaceAll_tokens, unescape1_bsl_id by assumption.
  rewrite ReplaceAll_tokens by assumption.
  pose proof (unescape1_ok "," "," _ ltac:(discriminate) Hok) as H1.
  rewrite ReplaceAll_tokens by assumption.
  pose proof (unescape1_ok ";" ";" _ ltac:(discriminate) H1) as H2.
  rewrite ReplaceAll_tokens by assumption.
  pose proof (unescape1_ok "n" "010" _ ltac:(discriminate) H2) as H3.
  rewrite ReplaceAll_tokens by assumption.
  pose proof (unescape1_ok "r" "013" _ ltac:(discriminate) H3) as H4.
  rewrite ReplaceAll_tokens by assumption.
  rewrite !List.map_map.
  rewrite (List.map_ext _ Plain) by (intros c; apply unescape_escapeToken).
  apply render_Plain.
Qed.

(** ** Line folding *)

(** C3. foldLine measures in bytes and looks for a fold only where a rune
    starts. In [straddling] no rune starts at byte offset 75: the first
    fold comes at offset 150, and the first physical line has 149
    characters. A line of 26 three-byte characters, which is shorter than
    75 characters, is folded after the 25th. *)
Theorem foldLine_multibyte :
  Utf8.RuneCountInString straddling = 155%nat
  /\ foldLine straddling
     = (Repeat "a" 74 +:+ "é" +:+ Repeat "a" 74)
       +:+ CR +:+ LF +:+ " " +:+ Repeat "a" 6
  /\ Utf8.RuneCountInString (Repeat "a" 74 +:+ "é" +:+ Repeat "a" 74)
     = 149%nat
  /\ Utf8.RuneCountInString (Repeat "€" 26) = 26%nat
  /\ foldLine (Repeat "€" 26) = Repeat "€" 25 +:+ CR +:+ LF +:+ " " +:+ "€".
Proof. repeat split; vm_compute; reflexivity. Qed.

(** The same through String: the TITLE line of [titled] is written with
    its first 150 bytes, 149 characters, on one physical line. *)
Example TITLE_line_of_titled :
  writeOrganizationProperties titled []
  = [ ("TITLE:" +:+ Repeat "a" 68 +:+ "é" +:+ Repeat "a" 74)
      +:+ CR +:+ LF +:+ " " +:+ Repeat "a" 6 +:+ LF ]
  /\ Validate titled = None.
Proof. split; vm_compute; reflexivity. Qed.

(** The test of the repository: a line of 100 letters is folded once. *)
Example foldLine_100 :
  foldLine (Repeat "A" 100)
  = Repeat "A" 75 +:+ CR +:+ LF +:+ " " +:+ Repeat "A" 25.
Proof. vm_compute. reflexivity. Qed.

(** *** Lines of ASCII characters *)

Lemma room_at_zero (i : nat) :
  (0 <? i)%nat && (i mod 75 =? 0)%nat = (room_at i =? 0)%nat.
Proof.
  unfold room_at. destruct i as [|i]; [reflexivity |].
  cbn [Nat.eqb Nat.ltb Nat.leb andb].
  pose proof (Nat.mod_upper_bound (S i) 75 ltac:(lia)) as Hb.
  destruct (Nat.eqb_spec (S i mod 75) 0) as [E | E].
  - rewrite E. reflexivity.
  - rewrite Nat.mod_small by lia. symmetry. apply Nat.eqb_neq. lia.
Qed.

Lemma mod_succ (i : nat) :
  (S i mod 75 = if (i mod 75 =? 74) then 0 else S (i mod 75))%nat.
Proof.
  pose proof (Nat.mod_upper_bound i 75 ltac:(lia)) as Hb.
  pose proof (Nat.div_mod_eq i 75) as Hd.
  destruct (Nat.eqb_spec (i mod 75) 74) as [E | E].
  - symmetry. apply (Nat.mod_unique (S i) 75 (S (i / 75))); lia.
  - symmetry. apply (Nat.mod_unique (S i) 75 (i / 75)); lia.
Qed.

Lemma room_at_succ (i : nat) :
  room_at (S i) = match room_at i with O => 74%nat | S r => r end.
Proof.
  unfold room_at. cbn [Nat.eqb]. rewrite mod_succ.
  pose proof (Nat.mod_upper_bound i 75 ltac:(lia)) as Hb.
  destruct i as [|i]; [reflexivity |]. cbn [Nat.eqb].
  destruct (Nat.eqb_spec (S i mod 75) 74) as [E | E].
  - rewrite E. reflexivity.
  - destruct (Nat.eq_dec (S i mod 75)%nat 0%nat) as [E0 | E0].
    + rewrite E0. reflexivity.
    + generalize dependent (S i mod 75)%nat. intros k Hb E E0.
      rewrite !Nat.mod_small by lia.
      destruct (75 - k)%nat eqn:E1; lia.
Qed.

Lemma foldLine_range_ascii (s : string) (i : nat) :
  isASCII s = true -> foldLine_range i 0 s = fold_chars (room_at i) s.
Proof.
  revert i. induction s as [|c s IH]; intros i Hs; [reflexivity |].
  cbn [isASCII] in Hs. apply andb_true_iff in Hs as [Hc Hs].
  cbn [foldLine_range fold_chars].
  rewrite Decode_ascii, Encode_ascii by assumption.
  rewrite room_at_zero. cbn [Nat.sub]. rewrite (IH (S i) Hs), room_at_succ.
  destruct (room_at i); reflexivity.
Qed.

Lemma fold_chars_short (room : nat) (s : string) :
  (String.length s <= room)%nat -> fold_chars room s = s.
Proof.
  revert room. induction s as [|c s IH]; intros room H; [reflexivity |].
  cbn [String.length] in H. destruct room as [|r]; [lia |].
  cbn [fold_chars]. rewrite IH by lia. reflexivity.
Qed.

(** On a line of ASCII characters foldLine is the folding on
    characters. *)
Lemma foldLine_ascii (line : string) :
  isASCII line = true -> foldLine line = fold_chars 75 line.
Proof.
  intros H. unfold foldLine.
  destruct (Nat.leb_spec (String.length line) 75) as [Hl | Hl].
  - symmetry. now apply fold_chars_short.
  - now apply (foldLine_range_ascii line 0).
Qed.

(** ** Dates *)

Lemma appendInt_length (width : nat) (bound x : Z) :
  forallb (fun n => (String.length (Time.appendInt (Z.of_nat n) width)
                     =? width)%nat) (seq 0 (Z.to_nat bound)) = true ->
  0 <= x < bound ->
  String.length (Time.appendInt x width) = width.
Proof.
  intros Hall Hx. rewrite forallb_forall in Hall.
  specialize (Hall (Z.to_nat x)). rewrite Z2Nat.id in Hall by lia.
  apply Nat.eqb_eq, Hall, in_seq. lia.
Qed.

Lemma length_append (s t : string) :
  String.length (s +:+ t) = (String.length s + String.length t)%nat.
Proof. induction s as [|c s IH]; [reflexivity |]. cbn. now rewrite IH. Qed.

(** For a date of the years 0 to 9999, Format gives four digits, a hyphen,
    two digits, a hyphen and two digits: ten bytes. *)
Lemma Format_length (d : Time.t) :
  0 <= Time.Year d <= 9999 -> 1 <= Time.Month d <= 12 ->
  1 <= Time.Day d <= 31 ->
  String.length (Time.Format d) = 10%nat.
Proof.
  intros Hy Hm Hd. unfold Time.Format. rewrite !length_append.
  rewrite (appendInt_length 4 10000) by first [lia | vm_compute; reflexivity].
  rewrite (appendInt_length 2 13) by first [lia | vm_compute; reflexivity].
  rewrite (appendInt_length 2 32) by first [lia | vm_compute; reflexivity].
  reflexivity.
Qed.
(** * Clone: the memory model, verified *)

Module HeapFacts.

Import Heap.

(** ** Running the operations *)

Lemma bind_run {A B} (m : M A) (k : A -> M B) h x h' :
  m h = Some (x, h') -> bind m k h = k x h'.
Proof. intros H. unfold bind. now rewrite H. Qed.

Lemma load_card_run h l o :
  card_at h l = Some o -> load_card l h = Some (o, h).
Proof.
  unfold card_at, load_card, load, bind.
  destruct (h !! l) as [[] |]; intros [= ->]; reflexivity.
Qed.

Lemma load_array_run h l a :
  h !! l = Some (CArray a) -> load_array l h = Some (a, h).
Proof. intros H. unfold load_array, load, bind. now rewrite H. Qed.

Lemma load_time_run h l t :
  h !! l = Some (CTime t) -> load_time l h = Some (t, h).
Proof. intros H. unfold load_time, load, bind. now rewrite H. Qed.

Lemma load_map_run h l m :
  h !! l = Some (CMap m) -> load_map l h = Some (m, h).
Proof. intros H. unfold load_map, load, bind. now rewrite H. Qed.

Lemma store_run h l c c' :
  h !! l = Some c' -> store l c h = Some (tt, <[l := c]> h).
Proof. intros H. unfold store. now rewrite H. Qed.

Lemma elements_run h s xs :
  slice_elems h s = Some xs -> elements s h = Some (xs, h).
Proof.
  unfold slice_elems, elements, load_array, load, ret, fail, bind.
  destruct (ptr s) as [l |].
  - destruct (h !! l) as [[o | a | t | m] |]; cbn; try discriminate.
    destruct (len s <=? length a)%nat; cbn; [| discriminate].
    now intros [= <-].
  - destruct (len s =? 0)%nat; cbn; [| discriminate]. now intros [= <-].
Qed.

Lemma slice_elems_length h s xs :
  slice_elems h s = Some xs -> length xs = len s.
Proof.
  unfold slice_elems, elements, load_array, load, ret, fail, bind.
  destruct (ptr s) as [l |].
  - destruct (h !! l) as [[o | a | t | m] |]; cbn; try discriminate.
    destruct (len s <=? length a)%nat eqn:E; cbn; [| discriminate].
    intros [= <-]. apply Nat.leb_le in E. now rewrite length_take_le.
  - destruct (len s =? 0)%nat eqn:E; cbn; [| discriminate].
    intros [= <-]. apply Nat.eqb_eq in E. now rewrite E.
Qed.

Lemma slice_elems_dom h s xs l :
  slice_elems h s = Some xs -> ptr s = Some l -> l ∈ dom h.
Proof.
  unfold slice_elems, elements, load_array, load, bind. intros H E.
  rewrite E in H.
  destruct (h !! l) eqn:El; [| discriminate H]. now apply elem_of_dom_2 in El.
Qed.

(** Reading a slice looks at its backing array only. *)
Lemma slice_elems_frame h1 h2 s :
  (forall l, ptr s = Some l -> h2 !! l = h1 !! l) ->
  slice_elems h2 s = slice_elems h1 s.
Proof.
  intros H. unfold slice_elems, elements, load_array, load, ret, fail, bind.
  destruct (ptr s) as [l |].
  - rewrite (H l eq_refl). destruct (h1 !! l) as [[o | a | t | m] |]; try reflexivity.
    destruct (len s <=? length a)%nat; reflexivity.
  - destruct (len s =? 0)%nat; reflexivity.
Qed.

Lemma time_at_frame h1 h2 p :
  (forall l, p = Some l -> h2 !! l = h1 !! l) -> time_at h2 p = time_at h1 p.
Proof. intros H. destruct p as [l |]; [| reflexivity]. cbn. now rewrite H. Qed.

Lemma map_at_frame h1 h2 p :
  (forall l, p = Some l -> h2 !! l = h1 !! l) -> map_at h2 p = map_at h1 p.
Proof. intros H. destruct p as [l |]; [| reflexivity]. cbn. now rewrite H. Qed.

Lemma time_at_dom h p l x : time_at h p = Some x -> p = Some l -> l ∈ dom h.
Proof.
  intros H ->. cbn in H. destruct (h !! l) eqn:E; [| discriminate H].
  now apply elem_of_dom_2 in E.
Qed.

Lemma map_at_dom h p l x : map_at h p = Some x -> p = Some l -> l ∈ dom h.
Proof.
  intros H ->. cbn in H. destruct (h !! l) eqn:E; [| discriminate H].
  now apply elem_of_dom_2 in E.
Qed.

Lemma elem_of_ptrs (l : nat) (p : option nat) : l ∈ ptrs p <-> p = Some l.
Proof.
  destruct p as [l' |]; cbn.
  - rewrite elem_of_singleton. split; [now intros -> | now intros [= ->]].
  - split; [intros H; now apply not_elem_of_empty in H | discriminate].
Qed.

(** The observation of a contact looks at its footprint only. *)
Lemma snapshot_frame h1 h2 v :
  (forall l, l ∈ footprint h1 v -> h2 !! l = h1 !! l) ->
  snapshot h2 v = snapshot h1 v.
Proof.
  intros H. unfold snapshot.
  assert (Hc : card_at h2 v = card_at h1 v).
  { unfold card_at. rewrite H; [reflexivity |]. unfold footprint.
    apply elem_of_union. left. now apply elem_of_singleton. }
  rewrite Hc. destruct (card_at h1 v) as [o |] eqn:Ho; [| reflexivity].
  cbn [mbind option_bind].
  assert (HF : forall l,
             l ∈ ptrs (ptr (emails o)) ∪ ptrs (ptr (phones o))
                 ∪ ptrs (ptr (addresses o)) ∪ ptrs (ptr (urls o))
                 ∪ ptrs (birthday o) ∪ ptrs (anniversary o)
                 ∪ ptrs (customProps o) -> h2 !! l = h1 !! l).
  { intros l Hl. apply H. unfold footprint. rewrite Ho.
    apply elem_of_union. now right. }
  rewrite (slice_elems_frame h1 h2 (emails o)),
    (slice_elems_frame h1 h2 (phones o)),
    (slice_elems_frame h1 h2 (addresses o)),
    (slice_elems_frame h1 h2 (urls o)),
    (time_at_frame h1 h2 (birthday o)),
    (time_at_frame h1 h2 (anniversary o)),
    (map_at_frame h1 h2 (customProps o)); [reflexivity | ..].
  all: intros l E; apply HF; apply (proj2 (elem_of_ptrs l _)) in E;
    repeat (apply elem_of_union; (right; exact E) || left); exact E.
Qed.

(** A contact that can be observed lies within the memory. *)
Lemma footprint_dom h v s : snapshot h v = Some s -> footprint h v ⊆ dom h.
Proof.
  unfold snapshot, footprint. intros H.
  destruct (card_at h v) as [o |] eqn:Ho; [| discriminate H].
  cbn [mbind option_bind] in H.
  assert (Hv : v ∈ dom h).
  { unfold card_at in Ho. destruct (h !! v) eqn:E; [| discriminate Ho].
    now apply elem_of_dom_2 in E. }
  destruct (slice_elems h (emails o)) as [xe |] eqn:He; [| discriminate H].
  cbn [mbind option_bind] in H.
  destruct (mapM as_email xe) as [es |]; [| discriminate H].
  cbn [mbind option_bind] in H.
  destruct (slice_elems h (phones o)) as [xp |] eqn:Hp; [| discriminate H].
  cbn [mbind option_bind] in H.
  destruct (mapM as_phone xp) as [ps |]; [| discriminate H].
  cbn [mbind option_bind] in H.
  destruct (slice_elems h (addresses o)) as [xa |] eqn:Ha; [| discriminate H].
  cbn [mbind option_bind] in H.
  destruct (mapM as_address xa) as [ads |]; [| discriminate H].
  cbn [mbind option_bind] in H.
  destruct (slice_elems h (urls o)) as [xu |] eqn:Hu; [| discriminate H].
  cbn [mbind option_bind] in H.
  destruct (mapM as_url xu) as [us |]; [| discriminate H].
  cbn [mbind option_bind] in H.
  destruct (time_at h (birthday o)) as [bd |] eqn:Hb; [| discriminate H].
  cbn [mbind option_bind] in H.
  destruct (time_at h (anniversary o)) as [an |] eqn:Hn; [| discriminate H].
  cbn [mbind option_bind] in H.
  destruct (map_at h (customProps o)) as [m |] eqn:Hm; [| discriminate H].
  intros l Hl.
  repeat (apply elem_of_union in Hl as [Hl | Hl]).
  - apply elem_of_singleton in Hl. now subst.
  - apply elem_of_ptrs in Hl. exact (slice_elems_dom _ _ _ _ He Hl).
  - apply elem_of_ptrs in Hl. exact (slice_elems_dom _ _ _ _ Hp Hl).
  - apply elem_of_ptrs in Hl. exact (slice_elems_dom _ _ _ _ Ha Hl).
  - apply elem_of_ptrs in Hl. exact (slice_elems_dom _ _ _ _ Hu Hl).
  - apply elem_of_ptrs in Hl. exact (time_at_dom _ _ _ _ Hb Hl).
  - apply elem_of_ptrs in Hl. exact (time_at_dom _ _ _ _ Hn Hl).
  - apply elem_of_ptrs in Hl. exact (map_at_dom _ _ _ _ Hm Hl).
Qed.

Lemma snapshot_inv h v s :
  snapshot h v = Some s ->
  exists o xe xp xa xu es ps ads us bd an m,
    card_at h v = Some o
    /\ slice_elems h (emails o) = Some xe /\ mapM as_email xe = Some es
    /\ slice_elems h (phones o) = Some xp /\ mapM as_phone xp = Some ps
    /\ slice_elems h (addresses o) = Some xa /\ mapM as_address xa = Some ads
    /\ slice_elems h (urls o) = Some xu /\ mapM as_url xu = Some us
    /\ time_at h (birthday o) = Some bd
    /\ time_at h (anniversary o) = Some an
    /\ map_at h (customProps o) = Some m
    /\ s = mkVCard (version o) (name o) es ps ads (organization o) us
                   (photo o) (note o) bd an (map_to_list m).
Proof.
  unfold snapshot. intros H.
  destruct (card_at h v) as [o |] eqn:Ho; [| discriminate H].
  cbn [mbind option_bind] in H.
  destruct (slice_elems h (emails o)) as [xe |] eqn:He; [| discriminate H].
  cbn [mbind option_bind] in H.
  destruct (mapM as_email xe) as [es |] eqn:Hes; [| discriminate H].
  cbn [mbind option_bind] in H.
  destruct (slice_elems h (phones o)) as [xp |] eqn:Hp; [| discriminate H].
  cbn [mbind option_bind] in H.
  destruct (mapM as_phone xp) as [ps |] eqn:Hps; [| discriminate H].
  cbn [mbind option_bind] in H.
  destruct (slice_elems h (addresses o)) as [xa |] eqn:Ha; [| discriminate H].
  cbn [mbind option_bind] in H.
  destruct (mapM as_address xa) as [ads |] eqn:Hads; [| discriminate H].
  cbn [mbind option_bind] in H.
  destruct (slice_elems h (urls o)) as [xu |] eqn:Hu; [| discriminate H].
  cbn [mbind option_bind] in H.
  destruct (mapM as_url xu) as [us |] eqn:Hus; [| discriminate H].
  cbn [mbind option_bind] in H.
  destruct (time_at h (birthday o)) as [bd |] eqn:Hb; [| discriminate H].
  cbn [mbind option_bind] in H.
  destruct (time_at h (anniversary o)) as [an |] eqn:Hn; [| discriminate H].
  cbn [mbind option_bind] in H.
  destruct (map_at h (customProps o)) as [m |] eqn:Hm; [| discriminate H].
  cbn [mbind option_bind] in H. injection H as <-.
  exists o, xe, xp, xa, xu, es, ps, ads, us, bd, an, m.
  repeat split; assumption.
Qed.

Lemma snapshot_intro h v o xe xp xa xu es ps ads us bd an m :
  card_at h v = Some o ->
  slice_elems h (emails o) = Some xe -> mapM as_email xe = Some es ->
  slice_elems h (phones o) = Some xp -> mapM as_phone xp = Some ps ->
  slice_elems h (addresses o) = Some xa -> mapM as_address xa = Some ads ->
  slice_elems h (urls o) = Some xu -> mapM as_url xu = Some us ->
  time_at h (birthday o) = Some bd ->
  time_at h (anniversary o) = Some an ->
  map_at h (customProps o) = Some m ->
  snapshot h v
  = Some (mkVCard (version o) (name o) es ps ads (organization o) us
                  (photo o) (note o) bd an (map_to_list m)).
Proof.
  intros Ho He Hes Hp Hps Ha Hads Hu Hus Hb Hn Hm. unfold snapshot.
  rewrite Ho. cbn [mbind option_bind].
  rewrite He. cbn [mbind option_bind]. rewrite Hes. cbn [mbind option_bind].
  rewrite Hp. cbn [mbind option_bind]. rewrite Hps. cbn [mbind option_bind].
  rewrite Ha. cbn [mbind option_bind]. rewrite Hads. cbn [mbind option_bind].
  rewrite Hu. cbn [mbind option_bind]. rewrite Hus. cbn [mbind option_bind].
  rewrite Hb. cbn [mbind option_bind]. rewrite Hn. cbn [mbind option_bind].
  rewrite Hm. reflexivity.
Qed.

(** *** Allocation *)

Lemma alloc_spec (c : cell) (h : gmap nat cell) :
  exists l, (l ∉ dom h) /\ alloc c h = Some (l, <[l := c]> h).
Proof. exists (fresh (dom h)). split; [apply is_fresh | reflexivity]. Qed.

Lemma make_spec (z : elem) (n : nat) (h : gmap nat cell) :
  exists l, (l ∉ dom h)
            /\ make z n h
               = Some (Slice (Some l) n n, <[l := CArray (replicate n z)]> h).
Proof.
  destruct (alloc_spec (CArray (replicate n z)) h) as (l & F & R).
  exists l. split; [exact F |]. unfold make. now rewrite (bind_run _ _ _ _ _ R).
Qed.

Lemma fresh_insert (l l' : nat) (c : cell) (h : gmap nat cell) :
  l ∉ dom (<[l' := c]> h) -> l <> l' /\ (l ∉ dom h).
Proof. rewrite dom_insert_L. set_solver. Qed.

(** [copy] into a new array of the length of the source. *)
Lemma copy_spec (h : gmap nat cell) (l : nat) (src : slice) (xs a : list elem) :
  slice_elems h src = Some xs ->
  h !! l = Some (CArray a) -> length a = len src ->
  copy (Slice (Some l) (len src) (len src)) src h
  = Some (tt, <[l := CArray xs]> h).
Proof.
  intros Hs Hl Ha. unfold copy.
  rewrite (bind_run _ _ _ _ _ (elements_run _ _ _ Hs)). cbn [ptr len].
  rewrite (bind_run _ _ _ _ _ (load_array_run _ _ _ Hl)).
  rewrite (store_run _ _ _ _ Hl). rewrite Nat.min_id.
  pose proof (slice_elems_length _ _ _ Hs) as Hx.
  rewrite take_ge, drop_ge, app_nil_r by lia. reflexivity.
Qed.

(** *** The loop over the custom properties *)

Lemma range_mapassign (p : nat) (entries : list (string * string))
      (h : gmap nat cell) (acc : gmap string string) :
  h !! p = Some (CMap acc) ->
  range entries (fun k x => mapassign p k x) h
  = Some (tt, <[p := CMap (fold_left (fun a kv => <[kv.1 := kv.2]> a)
                                     entries acc)]> h).
Proof.
  revert h acc. induction entries as [|[k x] rest IH]; intros h acc Hp.
  - cbn. now rewrite insert_id.
  - cbn [range fold_left fst snd].
    assert (R : mapassign p k x h = Some (tt, <[p := CMap (<[k := x]> acc)]> h)).
    { unfold mapassign. rewrite (bind_run _ _ _ _ _ (load_map_run _ _ _ Hp)).
      exact (store_run _ _ _ _ Hp). }
    rewrite (bind_run _ _ _ _ _ R).
    rewrite (IH _ (<[k := x]> acc)) by apply lookup_insert_eq.
    now rewrite insert_insert_eq.
Qed.

Lemma fold_insert_list_to_map (l : list (string * string))
      (acc : gmap string string) :
  NoDup (l.*1) ->
  fold_left (fun a kv => <[kv.1 := kv.2]> a) l acc = list_to_map l ∪ acc.
Proof.
  revert acc. induction l as [|[k x] l IH]; intros acc Hnd.
  - cbn. now rewrite (left_id_L ∅ (∪)).
  - cbn [fold_left fst snd]. cbn in Hnd. apply NoDup_cons in Hnd as [Hk Hnd].
    rewrite IH by assumption. cbn [list_to_map foldr fst snd].
    rewrite <- insert_union_l. symmetry. apply insert_union_r.
    now apply not_elem_of_list_to_map_1.
Qed.

Lemma fold_insert_map_to_list (m : gmap string string) :
  fold_left (fun a kv => <[kv.1 := kv.2]> a) (map_to_list m) ∅ = m.
Proof.
  rewrite fold_insert_list_to_map by apply NoDup_fst_map_to_list.
  now rewrite (right_id_L ∅ (∪)), list_to_map_to_list.
Qed.

(** *** Clone, run *)

Lemma snapshot_intro' h v o s xe xp xa xu es ps ads us bd an m :
  card_at h v = Some o ->
  slice_elems h (emails o) = Some xe -> mapM as_email xe = Some es ->
  slice_elems h (phones o) = Some xp -> mapM as_phone xp = Some ps ->
  slice_elems h (addresses o) = Some xa -> mapM as_address xa = Some ads ->
  slice_elems h (urls o) = Some xu -> mapM as_url xu = Some us ->
  time_at h (birthday o) = Some bd ->
  time_at h (anniversary o) = Some an ->
  map_at h (customProps o) = Some m ->
  s = mkVCard (version o) (name o) es ps ads (organization o) us
              (photo o) (note o) bd an (map_to_list m) ->
  snapshot h v = Some s.
Proof. intros. subst s. now apply snapshot_intro with xe xp xa xu. Qed.

Lemma slice_elems_new (h : gmap nat cell) (l n c : nat) (xs : list elem) :
  h !! l = Some (CArray xs) -> length xs = n ->
  slice_elems h (Slice (Some l) n c) = Some xs.
Proof.
  intros Hl Hn. unfold slice_elems, elements. cbn [ptr len].
  rewrite (bind_run _ _ _ _ _ (load_array_run _ _ _ Hl)).
  replace (n <=? length xs)%nat with true by (symmetry; apply Nat.leb_le; lia).
  cbn. now rewrite take_ge by lia.
Qed.

Lemma time_at_Some h l bd :
  time_at h (Some l) = Some bd ->
  exists t, h !! l = Some (CTime t) /\ bd = Some t.
Proof.
  cbn. destruct (h !! l) as [[o | a | t | m] |]; try discriminate.
  intros [= <-]. eauto.
Qed.

Lemma map_at_Some h l m :
  map_at h (Some l) = Some m -> h !! l = Some (CMap m).
Proof.
  cbn. destruct (h !! l) as [[o | a | t | m'] |]; try discriminate.
  now intros [= <-].
Qed.

Lemma card_at_Some h v o : card_at h v = Some o -> h !! v = Some (CCard o).
Proof.
  unfold card_at. destruct (h !! v) as [[o' | a | t | m'] |]; try discriminate.
  now intros [= <-].
Qed.

Ltac fresh_facts F :=
  repeat match type of F with
  | _ ∉ dom (<[_ := _]> _) =>
    let N := fresh "N" in
    apply fresh_insert in F as [N F]
  end;
  repeat match goal with
  | D : ?q ∈ dom ?h |- _ =>
    match type of F with
    | ?l ∉ dom h =>
      lazymatch goal with
      | _ : q <> l |- _ => fail
      | _ => assert (q <> l) by (intros ->; contradiction)
      end
    end
  end.

Ltac lookup_new :=
  repeat first
    [ rewrite lookup_insert_eq
    | rewrite lookup_insert_ne by congruence ].

Ltac step_alloc :=
  match goal with
  | |- context [bind (make ?z ?n) ?k ?h] =>
    let l := fresh "l" in let F := fresh "F" in let R := fresh "R" in
    destruct (make_spec z n h) as (l & F & R);
    rewrite (bind_run _ _ _ _ _ R); clear R; fresh_facts F
  | |- context [bind (alloc ?c) ?k ?h] =>
    let l := fresh "l" in let F := fresh "F" in let R := fresh "R" in
    destruct (alloc_spec c h) as (l & F & R);
    rewrite (bind_run _ _ _ _ _ R); clear R; fresh_facts F
  end.

Ltac lookup_old :=
  repeat (rewrite lookup_insert_ne by (intros ->; contradiction)).

Ltac step_copy Hsrc :=
  match type of Hsrc with
  | slice_elems _ ?src = Some ?xs =>
    match goal with
    | |- context [bind (copy (Slice (Some ?l) _ _) src) ?k ?h] =>
      let R := fresh "R" in
      assert (R : copy (Slice (Some l) (len src) (len src)) src h
                  = Some (tt, <[l := CArray xs]> h));
      [ eapply copy_spec;
        [ rewrite <- Hsrc; apply slice_elems_frame;
          let q := fresh "q" in let E := fresh "E" in
          intros q E; pose proof (slice_elems_dom _ _ _ _ Hsrc E);
          lookup_old; reflexivity
        | lookup_new; reflexivity
        | apply length_replicate ]
      | rewrite (bind_run _ _ _ _ _ R); clear R ]
    end
  end.

Lemma bind_assoc {A B C} (m : M A) (k1 : A -> M B) (k2 : B -> M C) h :
  bind (bind m k1) k2 h = bind m (fun x => bind (k1 x) k2) h.
Proof. unfold bind. destruct (m h) as [[x h'] |]; reflexivity. Qed.

Lemma bind_ret {A B} (x : A) (k : A -> M B) h : bind (ret x) k h = k x h.
Proof. reflexivity. Qed.

Lemma load_card_new h l o :
  h !! l = Some (CCard o) -> load_card l h = Some (o, h).
Proof. intros H. unfold load_card, load, bind. now rewrite H. Qed.

Ltac step_load_time Hold :=
  match type of Hold with
  | _ !! ?p = Some (CTime ?t) =>
    match goal with
    | |- context [bind (load_time p) ?k ?h] =>
      let R := fresh "R" in
      assert (R : load_time p h = Some (t, h))
        by (apply load_time_run; lookup_old; exact Hold);
      rewrite (bind_run _ _ _ _ _ R); clear R
    end
  end.

Ltac step_load_map Hold :=
  match type of Hold with
  | _ !! ?p = Some (CMap ?m) =>
    match goal with
    | |- context [bind (load_map p) ?k ?h] =>
      let R := fresh "R" in
      assert (R : load_map p h = Some (m, h))
        by (apply load_map_run; lookup_old; exact Hold);
      rewrite (bind_run _ _ _ _ _ R); clear R
    end
  end.

Ltac step_load_card :=
  match goal with
  | |- context [bind (load_card ?l) ?k ?h] =>
    let R := fresh "R" in
    eassert (R : load_card l h = Some (_, h))
      by (apply load_card_new; lookup_new; reflexivity);
    rewrite (bind_run _ _ _ _ _ R); clear R
  end.

Ltac step_store :=
  match goal with
  | |- context [bind (store ?l ?c) ?k ?h] =>
    let R := fresh "R" in
    assert (R : store l c h = Some (tt, <[l := c]> h))
      by (eapply store_run; lookup_new; reflexivity);
    rewrite (bind_run _ _ _ _ _ R); clear R
  end.

Ltac step_range :=
  match goal with
  | |- context [bind (range ?es (fun k x => mapassign ?p k x)) ?kk ?h] =>
    let R := fresh "R" in
    assert (R : range es (fun k x => mapassign p k x) h
                = Some (tt, <[p := CMap (fold_left
                                           (fun a kv => <[kv.1 := kv.2]> a)
                                           es ∅)]> h))
      by (apply range_mapassign; lookup_new; reflexivity);
    rewrite (bind_run _ _ _ _ _ R); clear R
  end.

Ltac run_time Hx :=
  match type of Hx with
  | time_at _ ?p = Some _ =>
    let pb := fresh "pb" in let E := fresh "E" in
    destruct p as [pb |] eqn:E;
    [ let t := fresh "t" in let D := fresh "D" in
      apply time_at_Some in Hx as (t & Hx & ->);
      pose proof (elem_of_dom_2 _ _ _ Hx) as D;
      rewrite ?bind_assoc; step_load_time Hx;
      rewrite ?bind_assoc; step_alloc;
      rewrite ?bind_assoc; step_load_card; step_store
    | cbn in Hx; injection Hx as <-; rewrite bind_ret ]
  end.

Ltac run_map Hx :=
  match type of Hx with
  | map_at _ ?p = Some _ =>
    let pm := fresh "pm" in let E := fresh "E" in
    destruct p as [pm |] eqn:E;
    [ let D := fresh "D" in
      apply map_at_Some in Hx;
      pose proof (elem_of_dom_2 _ _ _ Hx) as D;
      rewrite ?bind_assoc; step_load_map Hx;
      rewrite ?bind_assoc; step_range; rewrite fold_insert_map_to_list
    | cbn in Hx; injection Hx as <-; rewrite bind_ret ]
  end.

Ltac disjoint_fresh :=
  let x := fresh "x" in let Hx := fresh "Hx" in let Hd := fresh "Hd" in
  apply elem_of_disjoint; intros x Hx Hd;
  repeat (apply elem_of_union in Hx as [Hx | Hx]);
  first [ apply elem_of_singleton in Hx; subst; contradiction
        | apply elem_of_empty in Hx; contradiction ].

Lemma Clone_spec (h : gmap nat cell) (v : nat) (s : VCard) :
  snapshot h v = Some s ->
  exists c h',
    Clone v h = Some (c, h')
    /\ (forall l, l ∈ dom h -> h' !! l = h !! l)
    /\ footprint h' c ## dom h
    /\ snapshot h' c = Some s.
Proof.
  intros HS.
  destruct (snapshot_inv _ _ _ HS)
    as (o & xe & xp & xa & xu & es & ps & ads & us & bd & an & m
        & Ho & He & Hes & Hp & Hps & Ha & Hads & Hu & Hus & Hb & Hn & Hm & ->).
  clear HS. unfold Clone.
  rewrite (bind_run _ _ _ _ _ (load_card_run _ _ _ Ho)).
  do 6 step_alloc.
  step_copy He. step_copy Hp. step_copy Ha. step_copy Hu.
  run_time Hb; run_time Hn; run_map Hm.
  all: do 2 eexists; split; [reflexivity |].
  all: split; [intros q Dq; lookup_old; reflexivity |].
  all: split.
  all: try (unfold footprint, card_at; lookup_new;
            cbn [ptrs ptr emails phones addresses urls birthday anniversary
                 customProps set_birthday set_anniversary];
            disjoint_fresh).
  all: eapply snapshot_intro';
    [ unfold card_at; lookup_new; reflexivity
    | cbn [emails phones addresses urls set_birthday set_anniversary];
      apply slice_elems_new;
      [lookup_new; reflexivity | eapply slice_elems_length; eassumption]
    | eassumption
    | cbn [emails phones addresses urls set_birthday set_anniversary];
      apply slice_elems_new;
      [lookup_new; reflexivity | eapply slice_elems_length; eassumption]
    | eassumption
    | cbn [emails phones addresses urls set_birthday set_anniversary];
      apply slice_elems_new;
      [lookup_new; reflexivity | eapply slice_elems_length; eassumption]
    | eassumption
    | cbn [emails phones addresses urls set_birthday set_anniversary];
      apply slice_elems_new;
      [lookup_new; reflexivity | eapply slice_elems_length; eassumption]
    | eassumption
    | cbn [birthday anniversary set_birthday set_anniversary time_at];
      lookup_new; reflexivity
    | cbn [birthday anniversary set_birthday set_anniversary time_at];
      lookup_new; reflexivity
    | cbn [customProps set_birthday set_anniversary map_at];
      lookup_new; reflexivity
    | reflexivity ].
Qed.

(** ** Changes of the memory that go through one contact *)

Lemma AddName_mutates h v first last r h2 :
  AddName v first last h = Some (r, h2) -> mutates_only h h2 v.
Proof.
  unfold AddName, load_card, load, store, ret, fail, bind. intros H l _ Hl.
  destruct (h !! v) as [[o | a | t | m] |] eqn:Hv; try discriminate H.
  rewrite Hv in H. injection H as _ <-.
  apply lookup_insert_ne. intros ->. apply Hl. unfold footprint.
  apply elem_of_union. left. now apply elem_of_singleton.
Qed.

Lemma AddCustomProperty_mutates h v k x r h2 :
  AddCustomProperty v k x h = Some (r, h2) -> mutates_only h h2 v.
Proof.
  unfold AddCustomProperty. intros H l Dl Hl.
  destruct (card_at h v) as [o |] eqn:Ho.
  2:{ unfold load_card, load, bind, card_at in *.
      destruct (h !! v) as [[o | a | t | m] |]; discriminate. }
  assert (Nv : v <> l).
  { intros ->. apply Hl. unfold footprint.
    apply elem_of_union. left. now apply elem_of_singleton. }
  rewrite (bind_run _ _ _ _ _ (load_card_run _ _ _ Ho)) in H.
  destruct (customProps o) as [p |] eqn:Ep.
  - rewrite bind_ret in H.
    assert (Np : p <> l).
    { intros ->. apply Hl. unfold footprint. rewrite Ho.
      apply elem_of_union. right. apply elem_of_union. right.
      rewrite Ep. now apply elem_of_ptrs. }
    unfold mapassign, load_map, load, store, ret, fail, bind in H.
    destruct (h !! p) as [[o' | a | t | m] |] eqn:Hp; try discriminate H.
    rewrite Hp in H. injection H as _ <-. now apply lookup_insert_ne.
  - rewrite ?bind_assoc in H.
    destruct (alloc_spec (CMap ∅) h) as (p & F & R).
    rewrite (bind_run _ _ _ _ _ R) in H; clear R. rewrite ?bind_assoc in H.
    assert (Np : p <> l) by (intros ->; contradiction).
    apply card_at_Some in Ho.
    assert (R : store v (CCard (set_customProps o (Some p)))
                      (<[p := CMap ∅]> h)
                = Some (tt, <[v := CCard (set_customProps o (Some p))]>
                              (<[p := CMap ∅]> h))).
    { eapply store_run. rewrite lookup_insert_ne; [exact Ho |].
      intros ->. apply elem_of_dom_2 in Ho. contradiction. }
    rewrite (bind_run _ _ _ _ _ R) in H; clear R. rewrite bind_ret in H.
    unfold mapassign, load_map, load, store, ret, fail, bind in H.
    destruct (<[v:=_]> (<[p:=_]> h) !! p) as [[o' | a | t | m] |] eqn:Hp;
      try discriminate H.
    rewrite Hp in H. injection H as _ <-.
    now rewrite !lookup_insert_ne by assumption.
Qed.


End HeapFacts.

(** ** Clone is a deep copy *)

Lemma GetFormattedName_snapshot (h : gmap nat Heap.cell) (v : nat) (s : VCard) :
  Heap.snapshot h v = Some s ->
  Heap.GetFormattedName v h = Some (FormattedName (name s), h).
Proof.
  intros HS.
  destruct (HeapFacts.snapshot_inv _ _ _ HS)
    as (o & xe & xp & xa & xu & es & ps & ads & us & bd & an & m
        & Ho & _ & _ & _ & _ & _ & _ & _ & _ & _ & _ & _ & ->).
  unfold Heap.GetFormattedName.
  now rewrite (HeapFacts.bind_run _ _ _ _ _ (HeapFacts.load_card_run _ _ _ Ho)).
Qed.

Lemma GetCustomProperty_snapshot (h : gmap nat Heap.cell) (v : nat)
      (s : VCard) (k : string) :
  Heap.snapshot h v = Some s ->
  Heap.GetCustomProperty v k h
  = Some (default "" ((list_to_map (customProps s) : gmap string string) !! k),
          h).
Proof.
  intros HS.
  destruct (HeapFacts.snapshot_inv _ _ _ HS)
    as (o & xe & xp & xa & xu & es & ps & ads & us & bd & an & m
        & Ho & _ & _ & _ & _ & _ & _ & _ & _ & _ & _ & Hm & ->).
  unfold Heap.GetCustomProperty.
  rewrite (HeapFacts.bind_run _ _ _ _ _ (HeapFacts.load_card_run _ _ _ Ho)).
  cbn [customProps]. rewrite list_to_map_to_list.
  destruct (Heap.customProps o) as [p |].
  - apply HeapFacts.map_at_Some in Hm.
    now rewrite (HeapFacts.bind_run _ _ _ _ _ (HeapFacts.load_map_run _ _ _ Hm)).
  - cbn in Hm. injection Hm as <-. now rewrite lookup_empty.
Qed.

(** After Clone, a change that goes through one of the two contacts is not
    seen through the other. *)
Lemma Clone_frame (h : gmap nat Heap.cell) (v : nat) (s : VCard) :
  Heap.snapshot h v = Some s ->
  exists c h',
    Heap.Clone v h = Some (c, h')
    /\ Heap.snapshot h' c = Some s
    /\ Heap.snapshot h' v = Some s
    /\ Heap.footprint h' c ## Heap.footprint h' v
    /\ (forall h2, Heap.mutates_only h' h2 v -> Heap.snapshot h2 c = Some s)
    /\ (forall h2, Heap.mutates_only h' h2 c -> Heap.snapshot h2 v = Some s).
Proof.
  intros HS.
  destruct (HeapFacts.Clone_spec h v s HS) as (c & h' & HC & Hold & Hdis & HSc).
  exists c, h'.
  assert (HSv : Heap.snapshot h' v = Some s).
  { rewrite <- HS. apply HeapFacts.snapshot_frame. intros l Hl. apply Hold.
    now apply (HeapFacts.footprint_dom h v s HS). }
  assert (Hfv : Heap.footprint h' v ⊆ dom h).
  { intros l Hl. apply (HeapFacts.footprint_dom h v s HS).
    unfold Heap.footprint, Heap.card_at in *.
    rewrite Hold in Hl; [exact Hl |].
    apply (HeapFacts.footprint_dom h v s HS). unfold Heap.footprint.
    apply elem_of_union. left. now apply elem_of_singleton. }
  assert (Hdisj : Heap.footprint h' c ## Heap.footprint h' v).
  { apply elem_of_disjoint. intros l Hc Hv.
    apply (proj1 (elem_of_disjoint _ _) Hdis l Hc). now apply Hfv. }
  repeat split; try assumption.
  - intros h2 Hmut. rewrite <- HSc. apply HeapFacts.snapshot_frame.
    intros l Hl. apply Hmut.
    + now apply (HeapFacts.footprint_dom h' c s HSc).
    + intros Hv. exact (proj1 (elem_of_disjoint _ _) Hdisj l Hl Hv).
  - intros h2 Hmut. rewrite <- HSv. apply HeapFacts.snapshot_frame.
    intros l Hl. apply Hmut.
    + now apply (HeapFacts.footprint_dom h' v s HSv).
    + intros Hc. exact (proj1 (elem_of_disjoint _ _) Hdisj l Hc Hl).
Qed.

(** C9. Clone of a contact succeeds and gives a contact that is observed
    as the source is, made of objects of its own: the two contacts share
    no array, date cell or map. Hence no change of the memory that goes
    through the source (such as AddName or AddCustomProperty on it) is seen
    through the clone, whose formatted name and custom properties stay as
    they were, and no change that goes through the clone is seen through
    the source. *)
Theorem Clone_deep_copy (h : gmap nat Heap.cell) (v : nat) (s : VCard) :
  Heap.snapshot h v = Some s ->
  exists c h',
    Heap.Clone v h = Some (c, h')
    /\ Heap.snapshot h' c = Some s
    /\ Heap.snapshot h' v = Some s
    /\ Heap.footprint h' c ## Heap.footprint h' v
    /\ (forall h2, Heap.mutates_only h' h2 v -> Heap.snapshot h2 c = Some s)
    /\ (forall h2, Heap.mutates_only h' h2 c -> Heap.snapshot h2 v = Some s)
    /\ (forall first last r h2,
          Heap.AddName v first last h' = Some (r, h2) ->
          Heap.GetFormattedName c h2 = Some (FormattedName (name s), h2))
    /\ (forall first last r h2,
          Heap.AddName c first last h' = Some (r, h2) ->
          Heap.GetFormattedName v h2 = Some (FormattedName (name s), h2))
    /\ (forall k x k' r h2,
          Heap.AddCustomProperty v k x h' = Some (r, h2) ->
          Heap.GetCustomProperty c k' h2
          = Some (default ""
                    ((list_to_map (customProps s) : gmap string string) !! k'),
                  h2))
    /\ (forall k x k' r h2,
          Heap.AddCustomProperty c k x h' = Some (r, h2) ->
          Heap.GetCustomProperty v k' h2
          = Some (default ""
                    ((list_to_map (customProps s) : gmap string string) !! k'),
                  h2)).
Proof.
  intros HS.
  destruct (Clone_frame h v s HS) as (c & h' & HC & HSc & HSv & Hdis & Hc & Hv).
  exists c, h'. repeat split; try assumption.
  - intros first last r h2 HA. apply GetFormattedName_snapshot, Hc.
    exact (HeapFacts.AddName_mutates _ _ _ _ _ _ HA).
  - intros first last r h2 HA. apply GetFormattedName_snapshot, Hv.
    exact (HeapFacts.AddName_mutates _ _ _ _ _ _ HA).
  - intros k x k' r h2 HA. apply GetCustomProperty_snapshot, Hc.
    exact (HeapFacts.AddCustomProperty_mutates _ _ _ _ _ _ HA).
  - intros k x k' r h2 HA. apply GetCustomProperty_snapshot, Hv.
    exact (HeapFacts.AddCustomProperty_mutates _ _ _ _ _ _ HA).
Qed.

Lemma memory_snapshot : Heap.snapshot memory 0 = Some memory_contact.
Proof. vm_compute. reflexivity. Qed.

Lemma Clone_deep_copy_witness :
  exists c h',
    Heap.Clone 0 memory = Some (c, h')
    /\ Heap.snapshot h' c = Some memory_contact
    /\ Heap.snapshot h' 0 = Some memory_contact
    /\ Heap.footprint h' c ## Heap.footprint h' 0
    /\ (forall h2, Heap.mutates_only h' h2 0 ->
          Heap.snapshot h2 c = Some memory_contact)
    /\ (forall h2, Heap.mutates_only h' h2 c ->
          Heap.snapshot h2 0 = Some memory_contact)
    /\ (forall first last r h2,
          Heap.AddName 0 first last h' = Some (r, h2) ->
          Heap.GetFormattedName c h2 = Some ("John Doe", h2))
    /\ (forall first last r h2,
          Heap.AddName c first last h' = Some (r, h2) ->
          Heap.GetFormattedName 0 h2 = Some ("John Doe", h2))
    /\ (forall k x k' r h2,
          Heap.AddCustomProperty 0 k x h' = Some (r, h2) ->
          Heap.GetCustomProperty c k' h2
          = Some (default ""
                    ((list_to_map [("X-TEST", "value")] : gmap string string)
                       !! k'), h2))
    /\ (forall k x k' r h2,
          Heap.AddCustomProperty c k x h' = Some (r, h2) ->
          Heap.GetCustomProperty 0 k' h2
          = Some (default ""
                    ((list_to_map [("X-TEST", "value")] : gmap string string)
                       !! k'), h2)).
Proof.
  apply (Clone_deep_copy memory 0 memory_contact). vm_compute. reflexivity.
Defined.

(** The test of the repository: after Clone the name and a custom property
    of the original are changed; the clone still has the old ones. *)
Example Clone_then_mutate :
  (match Heap.Clone 0 memory with
   | Some (c, h1) =>
     match Heap.AddName 0 "Jane" "Smith" h1 with
     | Some (_, h2) =>
       match Heap.AddCustomProperty 0 "X-TEST" "modified" h2 with
       | Some (_, h3) =>
         Some (fst <$> Heap.GetFormattedName c h3,
               fst <$> Heap.GetCustomProperty c "X-TEST" h3,
               fst <$> Heap.GetFormattedName 0 h3,
               fst <$> Heap.GetCustomProperty 0 "X-TEST" h3)
       | None => None
       end
     | None => None
     end
   | None => None
   end)
  = Some (Some "John Doe", Some "value", Some "Jane Smith", Some "modified").
Proof. vm_compute. reflexivity. Qed.
